(** * Backward program slicing over a control-flow graph

    A shallow embedding of [program_slicing/slice.py]: the node registry,
    the CFG nodes, the recursive-descent CFG builder [PyCFG], the reference
    collector and the backward slicer, followed by the properties that the
    specification states about them. *)

From stdpp Require Import gmap strings list sorting.
From Stdlib Require Import ZArith Ascii.

Local Open Scope Z_scope.
Local Set Warnings "-register-all".

(** ** The abstract syntax tree

    The tree that [ast.parse] hands to the builder.  Python's [ast] nodes are
    dynamically typed, so statements and expressions live in one type.  Every
    statement and expression node carries its [lineno]; [Module] has none.
    [Other] stands for every node class without a constructor of its own
    here ([For], [FunctionDef], [Pass], [Call], ...): [cls] is its class
    name, and none of the functions below looks inside such a node. *)

Inductive ast : Type :=
| Module_ (body : list ast)
| Assign (lineno : Z) (targets : list ast) (value : ast)
| AnnAssign (lineno : Z) (target : ast) (annotation : ast)
| Expr (lineno : Z) (value : ast)
| While (lineno : Z) (test : ast) (body orelse : list ast)
| If (lineno : Z) (test : ast) (body orelse : list ast)
| Name (lineno : Z) (id : string)
| Constant (lineno : Z) (value : Z)
| BinOp (lineno : Z) (left right : ast)
| Compare (lineno : Z) (left : ast) (comparators : list ast)
| UnaryOp (lineno : Z) (operand : ast)
| Other (lineno : Z) (cls : string).

(** [node.__class__.__name__] *)
Definition class_name (node : ast) : string :=
  match node with
  | Module_ _ => "Module"
  | Assign _ _ _ => "Assign"
  | AnnAssign _ _ _ => "AnnAssign"
  | Expr _ _ => "Expr"
  | While _ _ _ _ => "While"
  | If _ _ _ _ => "If"
  | Name _ _ => "Name"
  | Constant _ _ => "Constant"
  | BinOp _ _ _ => "BinOp"
  | Compare _ _ _ => "Compare"
  | UnaryOp _ _ => "UnaryOp"
  | Other _ cls => cls
  end.

(** The [lineno] attribute, [None] when [hasattr(node, "lineno")] is false. *)
Definition attr_lineno (node : ast) : option Z :=
  match node with
  | Module_ _ => None
  | Assign l _ _ | AnnAssign l _ _ | Expr l _ | While l _ _ _ | If l _ _ _
  | Name l _ | Constant l _ | BinOp l _ _ | Compare l _ _ | UnaryOp l _
  | Other l _ => Some l
  end.

(** [str.lower] on the ASCII letters of a class name. *)
Definition lower_ascii (c : ascii) : ascii :=
  let n := nat_of_ascii c in
  if ((65 <=? n) && (n <=? 90))%nat then ascii_of_nat (n + 32) else c.

Fixpoint lower (s : string) : string :=
  match s with
  | EmptyString => EmptyString
  | String c s' => String (lower_ascii c) (lower s')
  end.

(** ** Exceptions and the state-and-error monad *)

Inductive exn : Type :=
| TypeError
| AttributeError
| AssertionError
| IndexError.

(** How a call ends: it returns, it raises, or (for the slicer's [while]
    loop only) the fuel of the model ran out before the loop ended. *)
Inductive outcome (A : Type) : Type :=
| Done (a : A)
| Raise (e : exn)
| OutOfFuel.
Arguments Done {A} a.
Arguments Raise {A} e.
Arguments OutOfFuel {A}.

(** ** CFG nodes and the registry

    A node reference is the node's [rid]: [CFGNode.__eq__] compares [rid]s,
    and every node is registered under its [rid] when it is created.
    [parents] is a reference to a Python list object: [__init__] stores the
    list it is given ([self.parents = parents]), so a node's parent list can
    be the very list that the builder passes on as a frontier, and
    [add_parent] appends to it in place.  [children], [relevant_set] and
    [control_set] are objects created by [__init__] and reached through
    their node only, so they are kept as values. *)

Abbreviation loc := nat.

Record CFGNode : Type := mkCFGNode {
  rid : nat;
  parents : loc;
  ast_node : ast;
  children : list nat;
  calls : list nat;
  relevant_set : gset string;
  control_set : gset Z
}.

(** [REGISTRY] is the dict of the source in insertion order: the entry at
    index [i] has key [i].  [REGISTRY_IDX] and the dict only change together
    ([register_node], [reset_registry]), so the counter is the number of
    entries.  [lists] holds the Python list objects that carry node
    references (frontiers and parent lists); a [loc] is an index into it. *)
Record state : Type := mkState {
  REGISTRY : list CFGNode;
  lists : list (list nat)
}.

Definition REGISTRY_IDX (st : state) : nat := length (REGISTRY st).

Definition M (A : Type) : Type := state -> outcome A * state.

Definition ret {A} (a : A) : M A := fun st => (Done a, st).

Definition raise {A} (e : exn) : M A := fun st => (Raise e, st).

Definition out_of_fuel {A} : M A := fun st => (OutOfFuel, st).

Definition bind {A B} (m : M A) (k : A -> M B) : M B :=
  fun st =>
    match m st with
    | (Done a, st') => k a st'
    | (Raise e, st') => (Raise e, st')
    | (OutOfFuel, st') => (OutOfFuel, st')
    end.

Notation "x <- m ;; k" := (bind m (fun x => k))
  (at level 100, m at next level, right associativity).
Notation "m ;;; k" := (bind m (fun _ => k))
  (at level 100, right associativity).

Definition get : M state := fun st => (Done st, st).

Definition modify (f : state -> state) : M unit := fun st => (Done tt, f st).

(** [for x in xs: body x] *)
Definition for_each {A} (body : A -> M unit) : list A -> M unit :=
  fix go xs :=
    match xs with
    | [] => ret tt
    | x :: xs' => body x ;;; go xs'
    end.

(** *** List objects *)

Definition set_lists (ls : list (list nat)) (st : state) : state :=
  mkState (REGISTRY st) ls.

Definition set_REGISTRY (r : list CFGNode) (st : state) : state :=
  mkState r (lists st).

(** A list display [[x1, ..., xn]] or a concatenation: a new list object. *)
Definition new_list (l : list nat) : M loc :=
  fun st => (Done (length (lists st)), set_lists (lists st ++ [l]) st).

Definition deref (st : state) (p : loc) : list nat :=
  default [] (lists st !! p).

Definition read_list (p : loc) : M (list nat) :=
  fun st => (Done (deref st p), st).

(** [p.append(x)] *)
Definition list_append (p : loc) (x : nat) : M unit :=
  modify (fun st => set_lists (alter (fun l => l ++ [x]) p (lists st)) st).

(** *** Node fields *)

Definition set_children (c : list nat) (n : CFGNode) : CFGNode :=
  mkCFGNode (rid n) (parents n) (ast_node n) c (calls n)
            (relevant_set n) (control_set n).

Definition set_relevant_set (r : gset string) (n : CFGNode) : CFGNode :=
  mkCFGNode (rid n) (parents n) (ast_node n) (children n) (calls n)
            r (control_set n).

Definition set_control_set (c : gset Z) (n : CFGNode) : CFGNode :=
  mkCFGNode (rid n) (parents n) (ast_node n) (children n) (calls n)
            (relevant_set n) c.

Definition alter_node (f : CFGNode -> CFGNode) (r : nat) : M unit :=
  modify (fun st => set_REGISTRY (alter f r (REGISTRY st)) st).

Definition node_of (st : state) (r : nat) : option CFGNode := REGISTRY st !! r.

(** *** The registry *)

Definition reset_registry : M unit := modify (set_REGISTRY []).

(** [register_node]: the node takes the next index and enters the dict. *)
Definition register_node (parents : loc) (a : ast) : M nat :=
  fun st =>
    let v := REGISTRY_IDX st in
    (Done v,
     set_REGISTRY (REGISTRY st ++ [mkCFGNode v parents a [] [] ∅ ∅]) st).

(** *** [CFGNode] methods *)

(** [add_child]: [if c not in self.children: self.children.append(c)] *)
Definition add_child (self c : nat) : M unit :=
  alter_node (fun n =>
    if decide (c ∈ children n) then n
    else set_children (children n ++ [c]) n) self.

(** [CFGNode.update_children]: [for p in parents: p.add_child(self)] *)
Definition CFGNode_update_children (self : nat) (ps : list nat) : M unit :=
  for_each (fun p => add_child p self) ps.

(** [__init__]: register, store the parent list and the payload, link the
    node into its parents, then give it its own empty [children]. *)
Definition CFGNode_init (parents : loc) (a : ast) : M nat :=
  self <- register_node parents a ;;
  ps <- read_list parents ;;
  CFGNode_update_children self ps ;;;
  alter_node (set_children []) self ;;;
  ret self.

(** [lineno()] *)
Definition lineno (n : CFGNode) : Z := default 0 (attr_lineno (ast_node n)).

(** [add_parent]: [if p not in self.parents: self.parents.append(p)] *)
Definition add_parent (self p : nat) : M unit :=
  st <- get ;;
  match node_of st self with
  | Some n =>
      if decide (p ∈ deref st (parents n)) then ret tt
      else list_append (parents n) p
  | None => ret tt
  end.

(** [add_parents].  The loop runs over the list [ps] as it is on entry: when
    [ps] and [self.parents] are the same object no element is appended, and
    otherwise the appends do not touch [ps]. *)
Definition add_parents (self : nat) (ps : loc) : M unit :=
  l <- read_list ps ;;
  for_each (add_parent self) l.

Definition update_relevant_set (self : nat) (r : gset string) : M unit :=
  alter_node (set_relevant_set r) self.

(** [update_control_set]: [if pred not in self.control_set: add] *)
Definition update_control_set (self : nat) (pred : Z) : M unit :=
  alter_node (fun n =>
    if decide (pred ∈ control_set n) then n
    else set_control_set (control_set n ∪ {[pred]}) n) self.

(** ** The CFG builder [PyCFG] *)

(** The [on_...] methods of [PyCFG]: what [hasattr(self, fname)] finds. *)
Definition PyCFG_handlers : list string :=
  ["on_module"; "on_assign"; "on_while"; "on_if"; "on_binop"; "on_compare";
   "on_unaryop"; "on_expr"]%string.

Definition fname (node : ast) : string := ("on_" ++ lower (class_name node))%string.

Definition hasattr_PyCFG (name : string) : bool :=
  bool_decide (name ∈ PyCFG_handlers).

(** [ast.parse("_while: <test>").body[0]] (or [_if]) after
    [ast.copy_location(_, test)]: an annotated assignment to the marker name
    whose annotation is the test expression and whose [lineno] is the
    test's.  Printing the test with [astor] and parsing it again gives the
    same expression; the line numbers inside the annotation are read
    nowhere. *)
Definition test_ast (marker : string) (test : ast) : ast :=
  AnnAssign (default 1 (attr_lineno test)) (Name 1 marker) test.

(** [node.test.lineno] *)
Definition get_lineno (node : ast) : M Z :=
  match attr_lineno node with
  | Some l => ret l
  | None => raise AttributeError
  end.

Section handlers.
(** [self.walk], the recursive call of every handler. *)
Variable walk : ast -> loc -> M loc.

(** [p = myparents; for n in body: p = self.walk(n, p)] *)
Definition walk_body : list ast -> loc -> M loc :=
  fix go body p :=
    match body with
    | [] => ret p
    | n :: body' => p' <- walk n p ;; go body' p'
    end.

Definition on_module (body : list ast) (myparents : loc) : M loc :=
  walk_body body myparents.

(** [NotImplemented] is not callable, so the [raise] line of [on_assign]
    ends in a [TypeError]. *)
Definition on_assign (node : ast) (targets : list ast) (value : ast)
    (myparents : loc) : M loc :=
  if decide (1 < length targets)%nat then raise TypeError
  else
    n <- CFGNode_init myparents node ;;
    p <- new_list [n] ;;
    walk value p.

Definition on_while (test : ast) (body : list ast) (myparents : loc)
    : M loc :=
  _test_node <- CFGNode_init myparents (test_ast "_while" test) ;;
  l <- new_list [_test_node] ;;
  test_node <- walk test l ;;
  tn <- read_list test_node ;;
  if decide (length tn = 1%nat) then
    p1 <- walk_body body test_node ;;
    add_parents _test_node p1 ;;;
    ret test_node
  else raise AssertionError.

(** The two loops of [on_if]: after each statement of the branch, every
    node of the frontier it returned gets the test's line number. *)
Definition walk_branch (test : ast) : list ast -> loc -> M loc :=
  fix go body p :=
    match body with
    | [] => ret p
    | n :: body' =>
        p' <- walk n p ;;
        nodes <- read_list p' ;;
        for_each (fun body_node =>
                    l <- get_lineno test ;;
                    update_control_set body_node l) nodes ;;;
        go body' p'
    end.

Definition on_if (test : ast) (body orelse : list ast) (myparents : loc)
    : M loc :=
  _test_node <- CFGNode_init myparents (test_ast "_if" test) ;;
  l <- new_list [_test_node] ;;
  test_node <- walk test l ;;
  tn <- read_list test_node ;;
  if decide (length tn = 1%nat) then
    p1 <- walk_branch test body test_node ;;
    p2 <- walk_branch test orelse test_node ;;
    l1 <- read_list p1 ;;
    l2 <- read_list p2 ;;
    new_list (l1 ++ l2)
  else raise AssertionError.

Definition on_binop (left right : ast) (myparents : loc) : M loc :=
  left' <- walk left myparents ;;
  walk right left'.

Definition on_compare (left : ast) (comparators : list ast)
    (myparents : loc) : M loc :=
  left' <- walk left myparents ;;
  match comparators with
  | c :: _ => walk c left'
  | [] => raise IndexError
  end.

Definition on_unaryop (operand : ast) (myparents : loc) : M loc :=
  walk operand myparents.

Definition on_expr (node value : ast) (myparents : loc) : M loc :=
  n <- CFGNode_init myparents node ;;
  p <- new_list [n] ;;
  walk value p.
End handlers.

(** [walk]: call the handler named after the node's class when [PyCFG] has
    one, otherwise hand the frontier back. *)
Fixpoint walk (node : ast) (myparents : loc) {struct node} : M loc :=
  if hasattr_PyCFG (fname node) then
    match node with
    | Module_ body => on_module walk body myparents
    | Assign _ targets value => on_assign walk node targets value myparents
    | While _ test body _ => on_while walk test body myparents
    | If _ test body orelse => on_if walk test body orelse myparents
    | BinOp _ lhs rhs => on_binop walk lhs rhs myparents
    | Compare _ lhs comparators => on_compare walk lhs comparators myparents
    | UnaryOp _ operand => on_unaryop walk operand myparents
    | Expr _ value => on_expr walk node value myparents
    | AnnAssign _ _ _ | Name _ _ | Constant _ _ | Other _ _ => ret myparents
    end
  else ret myparents.

(** [PyCFG.update_children]: the closing pass over the registry. *)
Definition PyCFG_update_children : M unit :=
  st <- get ;;
  for_each (fun node =>
              ps <- read_list (parents node) ;;
              for_each (fun p => add_child p (rid node)) ps)
           (REGISTRY st).

(** [PyCFG.__init__] and [PyCFG.gen_cfg] on the parsed module; the result is
    [(founder, last_node)]. *)
Definition PyCFG_init : M nat :=
  l <- new_list [] ;;
  CFGNode_init l (Expr 0 (Name 1 "start")).

Definition PyCFG_gen_cfg (founder : nat) (tree : ast) : M nat :=
  l <- new_list [founder] ;;
  nodes <- walk tree l ;;
  last_node <- CFGNode_init nodes (Expr 0 (Name 1 "stop")) ;;
  PyCFG_update_children ;;;
  ret last_node.

(** The module-level [gen_cfg]; the returned [cache] is the registry of the
    final state. *)
Definition gen_cfg (tree : ast) : M unit :=
  reset_registry ;;;
  founder <- PyCFG_init ;;
  PyCFG_gen_cfg founder tree ;;;
  ret tt.

Definition init_state : state := mkState [] [].

(** ** The reference collector

    The value returned is a Python list of names, or [None] when the chain
    of [elif]s is left without a [return].  List concatenation with a [None]
    operand raises [TypeError]. *)
Fixpoint collect_references (ast_node : ast) : outcome (option (list string)) :=
  match ast_node with
  | Name _ id => Done (Some [id])
  | Constant _ _ => Done (Some [])
  | BinOp _ lhs rhs =>
      match collect_references lhs with
      | Done l =>
          match collect_references rhs with
          | Done r =>
              match l, r with
              | Some l, Some r => Done (Some (l ++ r))
              | _, _ => Raise TypeError
              end
          | other => other
          end
      | other => other
      end
  | Assign _ _ value => collect_references value
  | AnnAssign _ _ annotation => collect_references annotation
  | If _ test _ _ => collect_references test
  | _ => Done None
  end.

(** ** The backward slicer *)

Definition lift {A} (o : outcome A) : M A := fun st => (o, st).

(** [set(collect_references(ast_node))]: [set(None)] raises [TypeError]. *)
Definition set_of_references (ast_node : ast) : M (gset string) :=
  r <- lift (collect_references ast_node) ;;
  match r with
  | Some l => ret (list_to_set l)
  | None => raise TypeError
  end.

(** [for target in targets: def_m.add(target.id)]; only a [Name] has [id]. *)
Fixpoint add_target_ids (targets : list ast) (def_m : gset string)
    : M (gset string) :=
  match targets with
  | [] => ret def_m
  | Name _ id :: targets' => add_target_ids targets' (def_m ∪ {[id]})
  | _ :: _ => raise AttributeError
  end.

(** A reference held by the slicer is a registered node; the lookup of
    anything else ends the run so that the model is total. *)
Definition get_node (r : nat) : M CFGNode :=
  st <- get ;;
  match node_of st r with
  | Some n => ret n
  | None => raise AttributeError
  end.

Section build_slice_body.
(** The recursive call [build_slice(parent, ref_c)]. *)
Variable build_slice : nat -> gset string -> M (gset Z).

(** One round of [for parent in parents].  The stack has its top first:
    [stack.append] is a cons and [stack.pop()] takes the head. *)
Definition visit_parent (current_loc parent : nat)
    (acc : list nat * gset Z) : M (list nat * gset Z) :=
  let '(stack, lines_in_slice) := acc in
  cur <- get_node current_loc ;;
  par <- get_node parent ;;
  def_m <- match ast_node par with
           | Assign _ targets _ => add_target_ids targets ∅
           | _ => ret ∅
           end ;;
  let relevant_m := relevant_set cur ∖ def_m in
  data <-
    (if decide (relevant_set cur ∩ def_m ≠ ∅) then
       ref_m <- set_of_references (ast_node par) ;;
       ret (relevant_m ∪ ref_m, lines_in_slice ∪ {[lineno par]})
     else ret (relevant_m, lines_in_slice)) ;;
  let relevant_m := fst data in
  let lines_in_slice := snd data in
  lines_in_slice <-
    (if decide (lineno par ∈ control_set cur) then
       ref_c <- set_of_references (ast_node par) ;;
       sub <- build_slice parent ref_c ;;
       ret ((lines_in_slice ∪ {[lineno par]}) ∪ sub)
     else ret lines_in_slice) ;;
  update_relevant_set parent relevant_m ;;;
  ret (parent :: stack, lines_in_slice).

(** [for parent in parents]; nothing in [build_slice] changes a list, so
    the loop runs over the parents as read on entry. *)
Fixpoint for_parents (current_loc : nat) (ps : list nat)
    (acc : list nat * gset Z) : M (list nat * gset Z) :=
  match ps with
  | [] => ret acc
  | parent :: ps' =>
      acc' <- visit_parent current_loc parent acc ;;
      for_parents current_loc ps' acc'
  end.

(** [while len(stack) > 0]: one unit of fuel per round. *)
Fixpoint while_stack (fuel : nat) (stack : list nat) (lines_in_slice : gset Z)
    : M (gset Z) :=
  match stack with
  | [] => ret lines_in_slice
  | current_loc :: stack' =>
      match fuel with
      | O => out_of_fuel
      | S fuel' =>
          cur <- get_node current_loc ;;
          ps <- read_list (parents cur) ;;
          acc <- for_parents current_loc ps (stack', lines_in_slice) ;;
          while_stack fuel' (fst acc) (snd acc)
      end
  end.
End build_slice_body.

(** [build_slice(node, vars)].  [fuel] bounds the rounds of the [while] loop
    and the depth of the recursion. *)
Fixpoint build_slice (fuel : nat) (node : nat) (vars : gset string)
    : M (gset Z) :=
  match fuel with
  | O => out_of_fuel
  | S fuel' =>
      update_relevant_set node vars ;;;
      while_stack (build_slice fuel') fuel' [node] ∅
  end.

(** [set(varname)]: the set of the characters of the string. *)
Fixpoint chars (s : string) : list string :=
  match s with
  | EmptyString => []
  | String c s' => String c EmptyString :: chars s'
  end.

Definition set_of_str (s : string) : gset string := list_to_set (chars s).

(** The loop of [slice] that looks for the start node: no [break]. *)
Definition find_start (linenum : Z) (nodes : list CFGNode) : option nat :=
  fold_left (fun start_loc node =>
               if decide (lineno node = linenum) then Some (rid node)
               else start_loc) nodes None.

(** [print_lines_in_slice(list(lines_in_slice))]: the sorted list printed. *)
Definition print_lines_in_slice (lines_in_slice : list Z) : list Z :=
  merge_sort Z.le lines_in_slice.

(** [slice(nodes, linenum, varname)]: [nodes] is the registry.  Raising a
    string is a [TypeError].  The value is the list that is printed. *)
Definition slice (fuel : nat) (linenum : Z) (varname : string) : M (list Z) :=
  st <- get ;;
  match find_start linenum (REGISTRY st) with
  | None => raise TypeError
  | Some start_loc =>
      lines_in_slice <- build_slice fuel start_loc (set_of_str varname) ;;
      ret (print_lines_in_slice (elements lines_in_slice))
  end.

(** ** Programs used below

    Each is the tree [ast.parse] gives for the source shown. *)

(** [a = 1; b = 2; c = a + b; d = c] on lines 1 to 4. *)
Definition scenario_A : ast :=
  Module_ [Assign 1 [Name 1 "a"] (Constant 1 1);
           Assign 2 [Name 2 "b"] (Constant 2 2);
           Assign 3 [Name 3 "c"] (BinOp 3 (Name 3 "a") (Name 3 "b"));
           Assign 4 [Name 4 "d"] (Name 4 "c")].

(** [i = 0] on line 1, [while i < 3: i = i + 1] on line 2. *)
Definition scenario_D : ast :=
  Module_ [Assign 1 [Name 1 "i"] (Constant 1 0);
           While 2 (Compare 2 (Name 2 "i") [Constant 2 3])
             [Assign 2 [Name 2 "i"] (BinOp 2 (Name 2 "i") (Constant 2 1))] []].

(** [while a:] on line 1, [while b:] on line 2, [x = 1] on line 3. *)
Definition nested_while : ast :=
  While 1 (Name 1 "a")
    [While 2 (Name 2 "b") [Assign 3 [Name 3 "x"] (Constant 3 1)] []] [].

(** [if c:] on line 1, [if d:] on line 2, [x = 1] on line 3, [else:] on
    line 4, [x = 2] on line 5. *)
Definition nested_if : ast :=
  Module_ [If 1 (Name 1 "c")
             [If 2 (Name 2 "d")
                [Assign 3 [Name 3 "x"] (Constant 3 1)]
                [Assign 5 [Name 5 "x"] (Constant 5 2)]] []].

(** [total = 1] on line 1, [out = total] on line 2. *)
Definition two_assignments : ast :=
  Module_ [Assign 1 [Name 1 "total"] (Constant 1 1);
           Assign 2 [Name 2 "out"] (Name 2 "total")].

(** The registry and list objects after [gen_cfg] on a fresh interpreter. *)
Definition cfg_of (tree : ast) : state := snd (gen_cfg tree init_state).

(** The frontier that [walk] returns for one statement placed right after
    the start node. *)
Definition exit_frontier (stmt : ast) : M (list nat) :=
  reset_registry ;;;
  founder <- PyCFG_init ;;
  l <- new_list [founder] ;;
  p <- walk stmt l ;;
  read_list p.

(** The seed as the specification words it: the first node, in registry
    order, whose line number is the seed line. *)
Definition first_node_at_line (linenum : Z) (nodes : list CFGNode)
    : option nat :=
  rid <$> head (filter (fun n => lineno n = linenum) nodes).

(** What a slice query may change: nothing but [relevant_set].  Two states
    have the same topology when their list objects are equal and their
    registries agree once every [relevant_set] is blanked. *)
Definition blank (n : CFGNode) : CFGNode := set_relevant_set ∅ n.

Definition same_topology (st st' : state) : Prop :=
  lists st' = lists st ∧ blank <$> REGISTRY st' = blank <$> REGISTRY st.

(** ** Statements about runs *)

(** [m'] returns whatever [m] returns. *)
Definition refines {A} (m m' : M A) : Prop :=
  ∀ st a st', m st = (Done a, st') → m' st = (Done a, st').

(** However the run of [m] ends, the state it leaves is [R]-related to the
    state it started in. *)
Definition preserves {A} (R : state → state → Prop) (m : M A) : Prop :=
  ∀ st, R st (snd (m st)).

(** The fields of a node that belong to the graph. *)
Definition topology_of (n : CFGNode)
    : nat * loc * ast * list nat * list nat * gset Z :=
  (rid n, parents n, ast_node n, children n, calls n, control_set n).

(** *** When the slicer cannot leave its loop

    [node_is_safe]: visiting the node as a parent, or visiting its parents,
    goes through without an exception and without a recursive call: its
    control set is empty, its parents are registered nodes, and when it is
    an assignment its targets are names and the collector returns a list
    for it. *)
Definition is_Name (a : ast) : bool :=
  match a with Name _ _ => true | _ => false end.

Definition returns_list (a : ast) : bool :=
  match collect_references a with Done (Some _) => true | _ => false end.

Definition node_is_safe (st : state) (n : CFGNode) : bool :=
  bool_decide (control_set n = ∅)
  && forallb (fun p => bool_decide (p < length (REGISTRY st))%nat)
             (deref st (parents n))
  && match ast_node n with
     | Assign _ targets _ => forallb is_Name targets && returns_list (ast_node n)
     | _ => true
     end.

Definition all_safe (st : state) : bool :=
  forallb (node_is_safe st) (REGISTRY st).

(** [nodes] is closed under "last parent": every node in it has parents,
    and the last of them is in [nodes] again.  The nodes of a loop are. *)
Definition closed_under_last_parent (st : state) (nodes : list nat) : bool :=
  forallb (fun c =>
             match node_of st c with
             | Some n =>
                 match last (deref st (parents n)) with
                 | Some p => bool_decide (p ∈ nodes)
                 | None => false
                 end
             | None => false
             end) nodes.

(** *** The builder's invariant

    [registered]: the reference points at a node of the registry.
    [builder_inv base]: every list object allocated from [base] on holds
    registered nodes only, and every node sits at the index that is its
    [rid], has no child twice, and has such a list object for its parents.
    [base] is the number of list objects that exist when the build begins;
    older ones are garbage that the build cannot reach. *)
Definition registered (st : state) (x : nat) : Prop :=
  (x < length (REGISTRY st))%nat.

Definition builder_inv (base : nat) (st : state) : Prop :=
  (base ≤ length (lists st))%nat ∧
  (∀ q, (base ≤ q)%nat → Forall (registered st) (deref st q)) ∧
  (∀ i n, REGISTRY st !! i = Some n →
          rid n = i ∧ NoDup (children n) ∧ (base ≤ parents n)%nat).

(** How often [c] appears in a list of node references. *)
Definition occurrences (c : nat) (l : list nat) : nat :=
  length (filter (fun x => x = c) l).

(** Structural induction on [ast] with the induction hypothesis for every
    element of the lists of sub-nodes. *)
Section ast_induction.
Variable P : ast → Prop.
Hypothesis HModule : ∀ body, Forall P body → P (Module_ body).
Hypothesis HAssign : ∀ l targets value,
  Forall P targets → P value → P (Assign l targets value).
Hypothesis HAnnAssign : ∀ l target annotation,
  P target → P annotation → P (AnnAssign l target annotation).
Hypothesis HExpr : ∀ l value, P value → P (Expr l value).
Hypothesis HWhile : ∀ l test body orelse,
  P test → Forall P body → Forall P orelse → P (While l test body orelse).
Hypothesis HIf : ∀ l test body orelse,
  P test → Forall P body → Forall P orelse → P (If l test body orelse).
Hypothesis HName : ∀ l id, P (Name l id).
Hypothesis HConstant : ∀ l value, P (Constant l value).
Hypothesis HBinOp : ∀ l lhs rhs, P lhs → P rhs → P (BinOp l lhs rhs).
Hypothesis HCompare : ∀ l lhs comparators,
  P lhs → Forall P comparators → P (Compare l lhs comparators).
Hypothesis HUnaryOp : ∀ l operand, P operand → P (UnaryOp l operand).
Hypothesis HOther : ∀ l cls, P (Other l cls).

Fixpoint ast_nested_ind (a : ast) : P a :=
  let all := fix all (xs : list ast) : Forall P xs :=
    match xs with
    | [] => @List.Forall_nil ast P
    | x :: xs' =>
        @List.Forall_cons ast P x xs' (ast_nested_ind x) (all xs')
    end in
  match a with
  | Module_ body => HModule body (all body)
  | Assign l targets value =>
      HAssign l targets value (all targets) (ast_nested_ind value)
  | AnnAssign l target annotation =>
      HAnnAssign l target annotation (ast_nested_ind target)
                 (ast_nested_ind annotation)
  | Expr l value => HExpr l value (ast_nested_ind value)
  | While l test body orelse =>
      HWhile l test body orelse (ast_nested_ind test) (all body) (all orelse)
  | If l test body orelse =>
      HIf l test body orelse (ast_nested_ind test) (all body) (all orelse)
  | Name l id => HName l id
  | Constant l value => HConstant l value
  | BinOp l lhs rhs =>
      HBinOp l lhs rhs (ast_nested_ind lhs) (ast_nested_ind rhs)
  | Compare l lhs comparators =>
      HCompare l lhs comparators (ast_nested_ind lhs) (all comparators)
  | UnaryOp l operand => HUnaryOp l operand (ast_nested_ind operand)
  | Other l cls => HOther l cls
  end.
End ast_induction.

(** [walk] on [node] keeps the builder's invariant, never shrinks the
    registry, and returns a list object of the build. *)
Definition walk_keeps (base : nat) (node : ast) : Prop :=
  ∀ p st p' st',
    builder_inv base st → (base ≤ p)%nat →
    walk node p st = (Done p', st') →
    builder_inv base st' ∧
    (length (REGISTRY st) ≤ length (REGISTRY st'))%nat ∧
    (base ≤ p')%nat.

(** [c] is among the children of the registered node [p]. *)
Definition has_child (st : state) (p c : nat) : Prop :=
  ∃ n, REGISTRY st !! p = Some n ∧ c ∈ children n.

(** From [st] to [st'] nothing changed but that nodes may have gained
    children: what the closing pass of the builder does. *)
Definition only_children_grow (st st' : state) : Prop :=
  lists st' = lists st ∧
  length (REGISTRY st') = length (REGISTRY st) ∧
  ∀ i n, REGISTRY st !! i = Some n →
    ∃ n', REGISTRY st' !! i = Some n' ∧ rid n' = rid n ∧
          parents n' = parents n ∧ ∀ c, c ∈ children n → c ∈ children n'.

(** The node classes that [collect_references] has a branch for. *)
Definition collector_kinds : list string :=
  ["Name"; "Constant"; "BinOp"; "Assign"; "AnnAssign"; "If"]%string.

Definition collector_handles (node : ast) : bool :=
  bool_decide (class_name node ∈ collector_kinds).

(** Expressions that the builder only passes through: names, constants,
    binary and unary operations and comparisons over such expressions (of a
    comparison [on_compare] walks the left operand and the first comparator),
    and nodes of a class without a handler. *)
Fixpoint pure_expr (e : ast) : bool :=
  match e with
  | Name _ _ | Constant _ _ => true
  | BinOp _ lhs rhs => pure_expr lhs && pure_expr rhs
  | Compare _ lhs (c :: _) => pure_expr lhs && pure_expr c
  | UnaryOp _ operand => pure_expr operand
  | Other _ _ => negb (hasattr_PyCFG (fname e))
  | _ => false
  end.

(** The statements of a body that [walk] has a handler for. *)
Definition handled_statements (body : list ast) : list ast :=
  List.filter (fun n => hasattr_PyCFG (fname n)) body.

(** [y = 1] on line 1, [x = -y] on line 2, [z = x] on line 3. *)
Definition unary_value : ast :=
  Module_ [Assign 1 [Name 1 "y"] (Constant 1 1);
           Assign 2 [Name 2 "x"] (UnaryOp 2 (Name 2 "y"));
           Assign 3 [Name 3 "z"] (Name 3 "x")].

(** [x = 1] on line 1, [if x > 0:] on line 2, [y = 2] on line 3, [else:]
    [y = 3] on line 4, [z = y] on line 5. *)
Definition scenario_C : ast :=
  Module_ [Assign 1 [Name 1 "x"] (Constant 1 1);
           If 2 (Compare 2 (Name 2 "x") [Constant 2 0])
             [Assign 3 [Name 3 "y"] (Constant 3 2)]
             [Assign 4 [Name 4 "y"] (Constant 4 3)];
           Assign 5 [Name 5 "z"] (Name 5 "y")].

(** *** When the slicer must leave its loop

    [w] ranks the nodes: every node weighs at least as much as its parents
    together, each parent counted with one more than its own weight.  Such a
    ranking exists exactly when the parent edges form no cycle. *)
Definition ranked (st : state) (w : nat → nat) : bool :=
  forallb (fun i =>
             match node_of st i with
             | Some n =>
                 (sum_list_with (fun p => S (w p)) (deref st (parents n))
                  <=? w i)%nat
             | None => true
             end) (seq 0 (length (REGISTRY st))).

(** The run ended: it returned or raised, it did not run out of fuel. *)
Definition ended {A} (r : outcome A * state) : Prop := fst r ≠ OutOfFuel.

(** [p] is in the parent list of the registered node [c]. *)
Definition parent_edge (st : state) (c p : nat) : Prop :=
  ∃ n, node_of st c = Some n ∧ p ∈ deref st (parents n).

(** [l] is the line of a proper ancestor of [seed]: of a node reached from
    [seed] over one or more parent edges. *)
Definition line_of_ancestor (st : state) (seed : nat) (l : Z) : Prop :=
  ∃ m n, tc (parent_edge st) seed m ∧ node_of st m = Some n ∧ lineno n = l.

(** *** The shape of the graph under construction

    [root] is the list object that [PyCFG.__init__] gives the start node for
    its parents.  It stays empty, every later list object of the build is
    non-empty, node 0 is the start node and owns [root], every other node
    has a later list object for its parents, and a node is a child only of
    nodes in its parent list. *)
Definition shape_inv (root : loc) (st : state) : Prop :=
  lists st !! root = Some [] ∧
  (∀ q l, (root < q)%nat → lists st !! q = Some l → l ≠ []) ∧
  (0 < length (REGISTRY st))%nat ∧
  (∀ i n, REGISTRY st !! i = Some n →
     (parents n < length (lists st))%nat ∧
     (i = 0%nat → parents n = root ∧ ast_node n = Expr 0 (Name 1 "start")) ∧
     (i ≠ 0%nat → (root < parents n)%nat)) ∧
  (∀ P nP C, REGISTRY st !! P = Some nP → C ∈ children nP →
     ∃ nC, REGISTRY st !! C = Some nC ∧ P ∈ deref st (parents nC)).

(** A list object that the builder may pass on as a frontier. *)
Definition frontier_ok (root : loc) (st : state) (p : loc) : Prop :=
  (root < p)%nat ∧ (p < length (lists st))%nat.

(** [walk] on [node] keeps the shape. *)
Definition walk_keeps_shape (root : loc) (node : ast) : Prop :=
  ∀ p st p' st',
    shape_inv root st → frontier_ok root st p →
    walk node p st = (Done p', st') →
    shape_inv root st' ∧ frontier_ok root st' p' ∧
    (length (lists st) ≤ length (lists st'))%nat.

(** Every parent was created before its child: the references in the parent
    list of node [i] are smaller than [i]. *)
Definition parents_before (st : state) : bool :=
  forallb (fun i =>
             match node_of st i with
             | Some n => forallb (fun p => p <? i)%nat (deref st (parents n))
             | None => true
             end) (seq 0 (length (REGISTRY st))).

(** The longest list object. *)
Definition width (st : state) : nat := max_list (length <$> lists st).

(** No [while] statement among the nodes that [walk] reaches. *)
Fixpoint while_free (a : ast) : bool :=
  match a with
  | Module_ body => forallb while_free body
  | Assign _ _ value => while_free value
  | Expr _ value => while_free value
  | While _ _ _ _ => false
  | If _ test body orelse =>
      while_free test && forallb while_free body && forallb while_free orelse
  | BinOp _ lhs rhs => while_free lhs && while_free rhs
  | Compare _ lhs (c :: _) => while_free lhs && while_free c
  | Compare _ lhs [] => while_free lhs
  | UnaryOp _ operand => while_free operand
  | AnnAssign _ _ _ | Name _ _ | Constant _ _ | Other _ _ => true
  end.

(** The order of creation as an invariant of the build. *)
Definition order_inv (st : state) : Prop :=
  ∀ i n, REGISTRY st !! i = Some n →
         Forall (fun x => (x < i)%nat) (deref st (parents n)).

(** The three invariants of the build together, with a frontier. *)
Definition build_inv (base : nat) (st : state) (p : loc) : Prop :=
  builder_inv base st ∧ shape_inv base st ∧ frontier_ok base st p.

(** [walk] on a [while]-free [node] keeps the order of creation. *)
Definition walk_keeps_order (base : nat) (node : ast) : Prop :=
  while_free node = true →
  ∀ p st p' st',
    build_inv base st p → order_inv st →
    walk node p st = (Done p', st') → order_inv st'.

(** The trees on which the chain of [elif]s of [collect_references] ends in
    a [return] at every level. *)
Fixpoint listed (e : ast) : bool :=
  match e with
  | Name _ _ | Constant _ _ => true
  | BinOp _ lhs rhs => listed lhs && listed rhs
  | Assign _ _ value => listed value
  | AnnAssign _ _ annotation => listed annotation
  | If _ test _ _ => listed test
  | _ => false
  end.

(** [a + (-b)] on line 1. *)
Definition sum_with_negation : ast :=
  BinOp 1 (Name 1 "a") (UnaryOp 1 (Name 1 "b")).

(** * Properties *)

(** ** Dispatch in [walk] *)

(** C10: a node whose class has no [on_<kind>] method in [PyCFG] makes [walk]
    return the incoming frontier, without an error and without touching the
    registry or any list. *)
Theorem walk_without_handler (node : ast) (myparents : loc) (st : state) :
  hasattr_PyCFG (fname node) = false →
  walk node myparents st = (Done myparents, st).
Proof.
  intros Hno.
  destruct node; cbn [walk]; rewrite Hno; reflexivity.
Qed.

Lemma walk_without_handler_witness :
  walk (Other 1 "For") 0%nat init_state = (Done 0%nat, init_state) ∧
  walk (Other 1 "FunctionDef") 0%nat init_state = (Done 0%nat, init_state).
Proof.
  split; apply walk_without_handler; vm_compute; reflexivity.
Defined.

(** ** Runs: sequencing and fuel *)

Lemma bind_Done {A B} (m : M A) (k : A → M B) (st : state) (b : B)
    (st' : state) :
  bind m k st = (Done b, st') ↔
  ∃ a st1, m st = (Done a, st1) ∧ k a st1 = (Done b, st').
Proof.
  unfold bind. destruct (m st) as [[a|e|] st1]; split.
  - intros Hk. eauto.
  - intros (a' & st1' & Hm & Hk). inversion Hm; subst. exact Hk.
  - intros Hk. discriminate Hk.
  - intros (a' & st1' & Hm & Hk). discriminate Hm.
  - intros Hk. discriminate Hk.
  - intros (a' & st1' & Hm & Hk). discriminate Hm.
Qed.

Lemma refines_refl {A} (m : M A) : refines m m.
Proof. intros st a st' Hm. exact Hm. Qed.

Lemma refines_bind {A B} (m m' : M A) (k k' : A → M B) :
  refines m m' → (∀ a, refines (k a) (k' a)) →
  refines (bind m k) (bind m' k').
Proof.
  intros Hm Hk st b st' Hrun.
  apply bind_Done in Hrun as (a & st1 & Hrun1 & Hrun2).
  apply bind_Done. exists a, st1. split; [apply Hm|apply Hk]; assumption.
Qed.

Section more_fuel.
Variables build_slice1 build_slice2 : nat → gset string → M (gset Z).
Hypothesis Hrec : ∀ n v, refines (build_slice1 n v) (build_slice2 n v).

Lemma visit_parent_refines (current_loc parent : nat)
    (acc : list nat * gset Z) :
  refines (visit_parent build_slice1 current_loc parent acc)
          (visit_parent build_slice2 current_loc parent acc).
Proof.
  unfold visit_parent. destruct acc as [stack lines_in_slice].
  repeat (apply refines_bind; [try apply refines_refl|intros ?]).
  - destruct (decide _); [|apply refines_refl].
    apply refines_bind; [apply refines_refl|intros ref_c].
    apply refines_bind; [apply Hrec|intros sub; apply refines_refl].
  - apply refines_refl.
Qed.

Lemma for_parents_refines (current_loc : nat) (ps : list nat)
    (acc : list nat * gset Z) :
  refines (for_parents build_slice1 current_loc ps acc)
          (for_parents build_slice2 current_loc ps acc).
Proof.
  revert acc. induction ps as [|parent ps IH]; intros acc; cbn [for_parents].
  - apply refines_refl.
  - apply refines_bind; [apply visit_parent_refines|intros acc'; apply IH].
Qed.

Lemma while_stack_refines (fuel fuel' : nat) (stack : list nat)
    (lines_in_slice : gset Z) :
  (fuel ≤ fuel')%nat →
  refines (while_stack build_slice1 fuel stack lines_in_slice)
          (while_stack build_slice2 fuel' stack lines_in_slice).
Proof.
  revert fuel' stack lines_in_slice.
  induction fuel as [|fuel IH]; intros fuel' stack lines_in_slice Hle;
    destruct stack as [|current_loc stack].
  - destruct fuel'; apply refines_refl.
  - intros st a st' Hrun. discriminate Hrun.
  - destruct fuel'; apply refines_refl.
  - destruct fuel' as [|fuel']; [lia|]. cbn [while_stack].
    repeat (apply refines_bind; [try apply refines_refl|intros ?]).
    + apply for_parents_refines.
    + apply IH. lia.
Qed.
End more_fuel.

(** A run of [build_slice] that returns keeps its result and its final
    state under any larger amount of fuel. *)
Lemma build_slice_more_fuel (fuel fuel' : nat) (node : nat)
    (vars : gset string) :
  (fuel ≤ fuel')%nat →
  refines (build_slice fuel node vars) (build_slice fuel' node vars).
Proof.
  revert fuel' node vars.
  induction fuel as [|fuel IH]; intros fuel' node vars Hle.
  - intros st a st' Hrun. discriminate Hrun.
  - destruct fuel' as [|fuel']; [lia|]. cbn [build_slice].
    apply refines_bind; [apply refines_refl|intros _].
    apply while_stack_refines; [|lia].
    intros n v. apply IH. lia.
Qed.

Lemma slice_more_fuel (fuel fuel' : nat) (linenum : Z) (varname : string)
    (st : state) (r : list Z) (st' : state) :
  (fuel ≤ fuel')%nat →
  slice fuel linenum varname st = (Done r, st') →
  slice fuel' linenum varname st = (Done r, st').
Proof.
  intros Hle. revert st r st'. change (refines (slice fuel linenum varname)
                                                (slice fuel' linenum varname)).
  unfold slice. apply refines_bind; [apply refines_refl|intros st0].
  destruct (find_start _ _); [|apply refines_refl].
  apply refines_bind; [|intros ?; apply refines_refl].
  apply build_slice_more_fuel, Hle.
Qed.

(** ** The scenarios of the specification *)

Lemma scenario_A_built : fst (gen_cfg scenario_A init_state) = Done tt.
Proof. vm_compute. reflexivity. Qed.

(** C2, as amended: on the straight-line program [a = 1; b = 2; c = a + b;
    d = c] the query with seed line 4 and seed variable [d] prints the empty
    list, for every amount of fuel from the six units the run needs: only
    the ancestors of the seed node are examined, and none assigns [d]. *)
Theorem scenario_A_slice_is_empty (fuel : nat) :
  fst (slice (6 + fuel) 4 "d" (cfg_of scenario_A)) = Done [].
Proof.
  assert (Hsix : slice 6 4 "d" (cfg_of scenario_A)
                 = (Done [], snd (slice 6 4 "d" (cfg_of scenario_A)))).
  { vm_compute. reflexivity. }
  rewrite (slice_more_fuel 6 (6 + fuel) _ _ _ _ _ ltac:(lia) Hsix).
  reflexivity.
Qed.

(** C2, as stated, fails: no run of the query returns lines 1 to 4. *)
Lemma scenario_A_slice_not_all_lines :
  ¬ ∃ fuel, fst (slice fuel 4 "d" (cfg_of scenario_A)) = Done [1; 2; 3; 4].
Proof.
  intros [fuel Hrun].
  destruct (slice fuel 4 "d" (cfg_of scenario_A)) as [o st'] eqn:Hfuel.
  cbn [fst] in Hrun. subst o.
  assert (Hsix : slice 6 4 "d" (cfg_of scenario_A)
                 = (Done [], snd (slice 6 4 "d" (cfg_of scenario_A)))).
  { vm_compute. reflexivity. }
  apply (slice_more_fuel fuel (fuel + 6)) in Hfuel; [|lia].
  apply (slice_more_fuel 6 (fuel + 6)) in Hsix; [|lia].
  rewrite Hsix in Hfuel. discriminate Hfuel.
Qed.

(** The same program sliced from the stop node (line 0) does give every
    line: the seed's own statement never counts, its ancestors do. *)
Example scenario_A_slice_from_stop :
  fst (slice 7 0 "d" (cfg_of scenario_A)) = Done [1; 2; 3; 4].
Proof. vm_compute. reflexivity. Qed.

(** ** The seed of a query *)

Lemma find_start_fold (linenum : Z) (nodes : list CFGNode) (acc : option nat) :
  fold_left (fun start_loc node =>
               if decide (lineno node = linenum) then Some (rid node)
               else start_loc) nodes acc =
  match last (filter (fun n => lineno n = linenum) nodes) with
  | Some n => Some (rid n)
  | None => acc
  end.
Proof.
  revert acc. induction nodes as [|n nodes IH]; intros acc; [reflexivity|].
  cbn [fold_left]. rewrite IH. rewrite filter_cons.
  destruct (decide (lineno n = linenum)) as [Heq|Hne].
  - destruct (filter _ nodes) as [|m ms]; [reflexivity|].
    change (last (n :: m :: ms)) with (last (m :: ms)).
    destruct (last (m :: ms)) eqn:Hlast; [reflexivity|].
    apply last_None in Hlast. discriminate Hlast.
  - reflexivity.
Qed.

(** C3, as amended: the query is seeded at the last node, in registry order,
    whose line number is the seed line; when no node has that line number
    the call raises (a [TypeError], the raised object being a string), runs
    no slicing and leaves the state as it was. *)
Theorem slice_seeds_last_node_at_line (fuel : nat) (linenum : Z)
    (varname : string) (st : state) :
  slice fuel linenum varname st =
  match last (filter (fun n => lineno n = linenum) (REGISTRY st)) with
  | Some start_loc =>
      (lines_in_slice <- build_slice fuel (rid start_loc) (set_of_str varname) ;;
       ret (print_lines_in_slice (elements lines_in_slice))) st
  | None => (Raise TypeError, st)
  end.
Proof.
  unfold slice, bind at 1, get, find_start.
  rewrite find_start_fold.
  destruct (last _); reflexivity.
Qed.

(** C3, as stated, fails: start and stop node both have line 0, and the
    query for line 0 starts at the stop node, which is not the first. *)
Lemma seed_is_not_first_node_at_line :
  find_start 0 (REGISTRY (cfg_of scenario_A)) = Some 5%nat ∧
  first_node_at_line 0 (REGISTRY (cfg_of scenario_A)) = Some 0%nat ∧
  find_start 0 (REGISTRY (cfg_of scenario_A)) ≠
    first_node_at_line 0 (REGISTRY (cfg_of scenario_A)).
Proof.
  split; [vm_compute; reflexivity|]. split; [vm_compute; reflexivity|].
  vm_compute. intros Heq. discriminate Heq.
Qed.

(** C4 at the name [out]: the seed node (the stop node, line 0) gets the
    set of the three characters, not the singleton of the name, and the
    assignment to [out] on line 2 is then missed. *)
Theorem seed_relevant_set_is_set_of_characters :
  relevant_set <$> node_of (snd (slice 10 0 "out" (cfg_of two_assignments))) 3
    = Some ({["o"; "u"; "t"]} : gset string) ∧
  set_of_str "out" ≠ {["out"]} ∧
  fst (slice 10 0 "out" (cfg_of two_assignments)) = Done [].
Proof.
  split; [vm_compute; reflexivity|]. split; [|vm_compute; reflexivity].
  intros Heq. assert (Hin : "out" ∈ set_of_str "out") by (rewrite Heq; set_solver).
  vm_compute in Hin. set_solver.
Qed.

(** ** The reference collector on a kind it does not list *)

(** C5, on the code: for a node of any class outside the six that the
    collector lists, [collect_references] returns [None]; it does not
    raise. *)
Theorem collect_references_unlisted_kind_returns_None (node : ast) :
  collector_handles node = false → collect_references node = Done None.
Proof.
  intros Hkind.
  destruct node; try reflexivity; vm_compute in Hkind; discriminate Hkind.
Qed.

(** The comparison [x > 0], the annotation of the test node of [if x > 0]. *)
Lemma collect_references_unlisted_kind_witness :
  collect_references (Compare 2 (Name 2 "x") [Constant 2 0]) = Done None.
Proof.
  apply collect_references_unlisted_kind_returns_None.
  vm_compute. reflexivity.
Defined.

(** ** Frontiers and control sets in nested statements *)

(** C7 at a [while] whose body starts with a [while]: the frontier returned
    for the outer loop holds the outer test node 1 and the inner body node
    3, since the inner test node was given that very list as its parents. *)
Theorem nested_while_exit_frontier :
  fst (exit_frontier nested_while init_state) = Done [1%nat; 3%nat].
Proof. vm_compute. reflexivity. Qed.

(** C6 at an [if] nested in an [if]: the inner test node 2, made while the
    outer then-branch is processed, has an empty control set; the two inner
    assignments 3 and 4 have both condition lines. *)
Theorem nested_if_test_node_unmarked :
  fst (gen_cfg nested_if init_state) = Done tt ∧
  (lineno <$> node_of (cfg_of nested_if) 2) = Some 2 ∧
  (control_set <$> node_of (cfg_of nested_if) 2) = Some (∅ : gset Z) ∧
  (control_set <$> node_of (cfg_of nested_if) 3) = Some ({[1; 2]} : gset Z) ∧
  (control_set <$> node_of (cfg_of nested_if) 4) = Some ({[1; 2]} : gset Z).
Proof. vm_compute. repeat split. Qed.

(** ** What a slice query writes *)

Lemma same_topology_refl (st : state) : same_topology st st.
Proof. split; reflexivity. Qed.

Lemma same_topology_trans (st1 st2 st3 : state) :
  same_topology st1 st2 → same_topology st2 st3 → same_topology st1 st3.
Proof. intros [Hl1 Hr1] [Hl2 Hr2]. split; congruence. Qed.

Lemma preserves_bind {A B} (m : M A) (k : A → M B) :
  preserves same_topology m → (∀ a, preserves same_topology (k a)) →
  preserves same_topology (bind m k).
Proof.
  intros Hm Hk st. unfold bind. specialize (Hm st).
  destruct (m st) as [[a|e|] st1]; cbn [snd] in *; try exact Hm.
  eapply same_topology_trans; [exact Hm|apply Hk].
Qed.

Lemma preserves_stateless {A} (m : M A) :
  (∀ st, snd (m st) = st) → preserves same_topology m.
Proof. intros Hm st. rewrite Hm. apply same_topology_refl. Qed.

Lemma blank_alter_relevant (r : gset string) (self : nat) (l : list CFGNode) :
  blank <$> alter (set_relevant_set r) self l = blank <$> l.
Proof.
  revert self. induction l as [|n l IH]; intros [|self]; cbn; try reflexivity.
  f_equal. apply IH.
Qed.

Lemma update_relevant_set_topology (self : nat) (r : gset string) :
  preserves same_topology (update_relevant_set self r).
Proof.
  intros st. split; [reflexivity|]. cbn. apply blank_alter_relevant.
Qed.

Lemma get_node_stateless (r : nat) (st : state) : snd (get_node r st) = st.
Proof.
  unfold get_node, bind, get. destruct (node_of st r); reflexivity.
Qed.

Lemma set_of_references_stateless (a : ast) (st : state) :
  snd (set_of_references a st) = st.
Proof.
  unfold set_of_references, bind, lift.
  destruct (collect_references a) as [[l|]|e|]; reflexivity.
Qed.

Lemma add_target_ids_stateless (targets : list ast) (def_m : gset string)
    (st : state) :
  snd (add_target_ids targets def_m st) = st.
Proof.
  revert def_m. induction targets as [|t targets IH]; intros def_m;
    [reflexivity|].
  destruct t; try reflexivity. cbn [add_target_ids]. apply IH.
Qed.

Section frame.
Variable rec : nat → gset string → M (gset Z).
Hypothesis Hrec : ∀ n v, preserves same_topology (rec n v).

Lemma visit_parent_topology (current_loc parent : nat)
    (acc : list nat * gset Z) :
  preserves same_topology (visit_parent rec current_loc parent acc).
Proof.
  unfold visit_parent. destruct acc as [stack lines_in_slice].
  apply preserves_bind;
    [apply preserves_stateless, get_node_stateless|intros cur].
  apply preserves_bind;
    [apply preserves_stateless, get_node_stateless|intros par].
  apply preserves_bind.
  { apply preserves_stateless. intros st.
    destruct (ast_node par); try reflexivity. apply add_target_ids_stateless. }
  intros def_m. apply preserves_bind.
  { destruct (decide _); [|apply preserves_stateless; reflexivity].
    apply preserves_bind;
      [apply preserves_stateless, set_of_references_stateless|].
    intros ref_m. apply preserves_stateless. reflexivity. }
  intros data. apply preserves_bind.
  { destruct (decide _); [|apply preserves_stateless; reflexivity].
    apply preserves_bind;
      [apply preserves_stateless, set_of_references_stateless|].
    intros ref_c. apply preserves_bind; [apply Hrec|].
    intros sub. apply preserves_stateless. reflexivity. }
  intros lines. apply preserves_bind; [apply update_relevant_set_topology|].
  intros _. apply preserves_stateless. reflexivity.
Qed.

Lemma for_parents_topology (current_loc : nat) (ps : list nat)
    (acc : list nat * gset Z) :
  preserves same_topology (for_parents rec current_loc ps acc).
Proof.
  revert acc. induction ps as [|parent ps IH]; intros acc; cbn [for_parents].
  - apply preserves_stateless. reflexivity.
  - apply preserves_bind; [apply visit_parent_topology|intros acc'; apply IH].
Qed.

Lemma while_stack_topology (fuel : nat) (stack : list nat)
    (lines_in_slice : gset Z) :
  preserves same_topology (while_stack rec fuel stack lines_in_slice).
Proof.
  revert stack lines_in_slice.
  induction fuel as [|fuel IH]; intros [|current_loc stack] lines_in_slice;
    try (apply preserves_stateless; reflexivity).
  cbn [while_stack].
  apply preserves_bind;
    [apply preserves_stateless, get_node_stateless|intros cur].
  apply preserves_bind; [apply preserves_stateless; reflexivity|intros ps].
  apply preserves_bind; [apply for_parents_topology|intros acc; apply IH].
Qed.
End frame.

Lemma build_slice_topology (fuel node : nat) (vars : gset string) :
  preserves same_topology (build_slice fuel node vars).
Proof.
  revert node vars. induction fuel as [|fuel IH]; intros node vars.
  - apply preserves_stateless. reflexivity.
  - cbn [build_slice].
    apply preserves_bind; [apply update_relevant_set_topology|intros _].
    apply while_stack_topology. exact IH.
Qed.

Lemma slice_topology (fuel : nat) (linenum : Z) (varname : string) :
  preserves same_topology (slice fuel linenum varname).
Proof.
  unfold slice.
  apply preserves_bind; [apply preserves_stateless; reflexivity|intros st0].
  destruct (find_start _ _); [|apply preserves_stateless; reflexivity].
  apply preserves_bind; [apply build_slice_topology|].
  intros lines. apply preserves_stateless. reflexivity.
Qed.

Lemma topology_of_blank (n : CFGNode) : topology_of (blank n) = topology_of n.
Proof. reflexivity. Qed.

Lemma same_topology_lookup (st st' : state) (i : nat) :
  same_topology st st' →
  topology_of <$> (REGISTRY st' !! i) = topology_of <$> (REGISTRY st !! i).
Proof.
  intros [_ Hreg].
  assert (Hi : (blank <$> REGISTRY st') !! i = (blank <$> REGISTRY st) !! i)
    by (rewrite Hreg; reflexivity).
  rewrite !list_lookup_fmap in Hi.
  destruct (REGISTRY st' !! i) as [n'|], (REGISTRY st !! i) as [n|];
    cbn in *; try congruence.
  f_equal. rewrite <- (topology_of_blank n'), <- (topology_of_blank n).
  congruence.
Qed.

(** C9: however a slice query ends, the list objects are what they were,
    the registry has as many nodes as before, and every node has the [rid],
    parent list, payload, children, calls and control set it had: only
    [relevant_set] can differ. *)
Theorem slice_writes_only_relevant_set (fuel : nat) (linenum : Z)
    (varname : string) (st : state) :
  let st' := snd (slice fuel linenum varname st) in
  lists st' = lists st ∧
  length (REGISTRY st') = length (REGISTRY st) ∧
  ∀ i, topology_of <$> (REGISTRY st' !! i) = topology_of <$> (REGISTRY st !! i).
Proof.
  intros st'. pose proof (slice_topology fuel linenum varname st) as Htop.
  fold st' in Htop. split; [apply Htop|]. split.
  - destruct Htop as [_ Hreg].
    apply (f_equal length) in Hreg. rewrite !length_fmap in Hreg. exact Hreg.
  - intros i. apply same_topology_lookup, Htop.
Qed.

(** ** The slicer on a loop *)

Lemma bind_run {A B} (m : M A) (k : A → M B) (st : state) (a : A)
    (st1 : state) :
  m st = (Done a, st1) → bind m k st = k a st1.
Proof. intros Hm. unfold bind. rewrite Hm. reflexivity. Qed.

Lemma get_node_run (st : state) (r : nat) (n : CFGNode) :
  node_of st r = Some n → get_node r st = (Done n, st).
Proof. intros Hn. unfold get_node, bind, get. rewrite Hn. reflexivity. Qed.

Lemma same_topology_node (st0 st : state) (i : nat) (n : CFGNode) :
  same_topology st0 st → node_of st0 i = Some n →
  ∃ n', node_of st i = Some n' ∧ topology_of n' = topology_of n.
Proof.
  intros Htop Hn. pose proof (same_topology_lookup st0 st i Htop) as Hi.
  unfold node_of in *. rewrite Hn in Hi.
  destruct (REGISTRY st !! i) as [n'|]; [|discriminate Hi].
  exists n'. split; [reflexivity|]. cbn in Hi. congruence.
Qed.

Lemma add_target_ids_names (targets : list ast) (def_m : gset string)
    (st : state) :
  forallb is_Name targets = true →
  ∃ d, add_target_ids targets def_m st = (Done d, st).
Proof.
  revert def_m. induction targets as [|t targets IH]; intros def_m Hnames.
  - exists def_m. reflexivity.
  - cbn [forallb] in Hnames. apply andb_prop in Hnames as [Ht Hnames].
    destruct t; try discriminate Ht. cbn [add_target_ids]. apply IH, Hnames.
Qed.

Lemma set_of_references_run (a : ast) (st : state) :
  returns_list a = true → ∃ s, set_of_references a st = (Done s, st).
Proof.
  unfold returns_list, set_of_references, bind, lift.
  destruct (collect_references a) as [[l|]|e|]; try discriminate.
  intros _. eexists. reflexivity.
Qed.

Lemma all_safe_node (st : state) (i : nat) (n : CFGNode) :
  all_safe st = true → node_of st i = Some n → node_is_safe st n = true.
Proof.
  intros Hsafe Hn. unfold all_safe in Hsafe.
  rewrite forallb_forall in Hsafe. apply Hsafe.
  apply list_elem_of_In. eapply list_elem_of_lookup_2. exact Hn.
Qed.

Section divergence.
Variable st0 : state.
Variable nodes : list nat.
Hypothesis Hsafe : all_safe st0 = true.
Hypothesis Hclosed : closed_under_last_parent st0 nodes = true.

Variable rec : nat → gset string → M (gset Z).

Lemma visit_parent_goes_through (st : state) (current_loc parent : nat)
    (stack : list nat) (lines_in_slice : gset Z) :
  same_topology st0 st →
  is_Some (node_of st0 current_loc) → is_Some (node_of st0 parent) →
  ∃ lines' st',
    visit_parent rec current_loc parent (stack, lines_in_slice) st
      = (Done (parent :: stack, lines'), st') ∧
    same_topology st0 st'.
Proof.
  intros Htop [cur0 Hcur0] [par0 Hpar0].
  destruct (same_topology_node _ _ _ _ Htop Hcur0) as (cur & Hcur & Hcur_eq).
  destruct (same_topology_node _ _ _ _ Htop Hpar0) as (par & Hpar & Hpar_eq).
  pose proof (all_safe_node _ _ _ Hsafe Hcur0) as Hcur_safe.
  pose proof (all_safe_node _ _ _ Hsafe Hpar0) as Hpar_safe.
  unfold node_is_safe in Hcur_safe, Hpar_safe.
  apply andb_prop in Hcur_safe as [Hcur_safe _].
  apply andb_prop in Hcur_safe as [Hctl _].
  apply bool_decide_eq_true in Hctl.
  apply andb_prop in Hpar_safe as [_ Hassign].
  assert (Hctl' : control_set cur = ∅).
  { unfold topology_of in Hcur_eq. congruence. }
  assert (Hast : ast_node par = ast_node par0).
  { unfold topology_of in Hpar_eq. congruence. }
  unfold visit_parent.
  rewrite (bind_run _ _ _ _ _ (get_node_run _ _ _ Hcur)).
  rewrite (bind_run _ _ _ _ _ (get_node_run _ _ _ Hpar)).
  assert (Hdef : ∃ def_m,
    match ast_node par with
    | Assign _ targets _ => add_target_ids targets ∅
    | _ => ret ∅
    end st = (Done def_m, st) ∧
    (relevant_set cur ∩ def_m ≠ ∅ → returns_list (ast_node par) = true)).
  { rewrite Hast. destruct (ast_node par0) eqn:Hkind;
      try (exists ∅; split;
           [reflexivity
           |intros Hne; rewrite intersection_empty_r_L in Hne; congruence]).
    apply andb_prop in Hassign as [Hnames Hlist].
    destruct (add_target_ids_names targets ∅ st Hnames) as [d Hd].
    exists d. split; [exact Hd|intros _; exact Hlist]. }
  destruct Hdef as (def_m & Hdef & Hrefs).
  rewrite (bind_run _ _ _ _ _ Hdef).
  assert (Hdata : ∃ data,
    (if decide (relevant_set cur ∩ def_m ≠ ∅) then
       ref_m <- set_of_references (ast_node par) ;;
       ret (relevant_set cur ∖ def_m ∪ ref_m,
            lines_in_slice ∪ {[lineno par]})
     else ret (relevant_set cur ∖ def_m, lines_in_slice)) st
    = (Done data, st)).
  { destruct (decide _) as [Hne|_]; [|eexists; reflexivity].
    destruct (set_of_references_run _ st (Hrefs Hne)) as [s Hs].
    rewrite (bind_run _ _ _ _ _ Hs). eexists. reflexivity. }
  destruct Hdata as (data & Hdata).
  rewrite (bind_run _ _ _ _ _ Hdata).
  destruct (decide (lineno par ∈ control_set cur)) as [Hin|_].
  { rewrite Hctl' in Hin. apply not_elem_of_empty in Hin. destruct Hin. }
  rewrite (bind_run (ret (snd data)) _ st (snd data) st eq_refl).
  unfold bind at 1.
  pose proof (update_relevant_set_topology parent (fst data) st) as Hupd.
  destruct (update_relevant_set parent (fst data) st) as [[[]|e|] st'] eqn:Hrun;
    try discriminate Hrun.
  exists (snd data), st'. split; [reflexivity|].
  eapply same_topology_trans; [exact Htop|exact Hupd].
Qed.

Lemma for_parents_goes_through (st : state) (current_loc : nat)
    (ps stack : list nat) (lines_in_slice : gset Z) :
  same_topology st0 st →
  is_Some (node_of st0 current_loc) →
  Forall (fun p => is_Some (node_of st0 p)) ps →
  ∃ lines' st',
    for_parents rec current_loc ps (stack, lines_in_slice) st
      = (Done (reverse ps ++ stack, lines'), st') ∧
    same_topology st0 st'.
Proof.
  intros Htop Hcur Hps. revert st stack lines_in_slice Htop.
  induction Hps as [|parent ps Hparent Hps IH];
    intros st stack lines_in_slice Htop.
  - exists lines_in_slice, st. split; [reflexivity|exact Htop].
  - cbn [for_parents].
    destruct (visit_parent_goes_through st current_loc parent stack
                lines_in_slice Htop Hcur Hparent)
      as (lines1 & st1 & Hvisit & Htop1).
    rewrite (bind_run _ _ _ _ _ Hvisit).
    destruct (IH st1 (parent :: stack) lines1 Htop1)
      as (lines2 & st2 & Hrest & Htop2).
    exists lines2, st2. split; [|exact Htop2].
    rewrite Hrest, reverse_cons, <- app_assoc. reflexivity.
Qed.

Lemma closed_node (c : nat) :
  c ∈ nodes →
  ∃ n ps p, node_of st0 c = Some n ∧
            deref st0 (parents n) = ps ++ [p] ∧ p ∈ nodes.
Proof.
  intros Hc. unfold closed_under_last_parent in Hclosed.
  rewrite forallb_forall in Hclosed.
  specialize (Hclosed c (proj1 (list_elem_of_In _ _) Hc)).
  destruct (node_of st0 c) as [n|]; [|discriminate Hclosed].
  destruct (last (deref st0 (parents n))) as [p|] eqn:Hlast;
    [|discriminate Hclosed].
  apply bool_decide_eq_true in Hclosed.
  apply last_Some in Hlast as [ps Hps].
  exists n, ps, p. auto.
Qed.

Lemma safe_parents_registered (c : nat) (n : CFGNode) :
  node_of st0 c = Some n →
  Forall (fun p => is_Some (node_of st0 p)) (deref st0 (parents n)).
Proof.
  intros Hn. pose proof (all_safe_node _ _ _ Hsafe Hn) as Hn_safe.
  unfold node_is_safe in Hn_safe.
  apply andb_prop in Hn_safe as [Hn_safe _].
  apply andb_prop in Hn_safe as [_ Hvalid].
  rewrite forallb_forall in Hvalid. apply Forall_forall. intros p Hp.
  apply list_elem_of_In, Hvalid, bool_decide_eq_true in Hp.
  apply lookup_lt_is_Some. exact Hp.
Qed.

Lemma while_stack_diverges (fuel : nat) (st : state) (c : nat)
    (stack : list nat) (lines_in_slice : gset Z) :
  same_topology st0 st → c ∈ nodes →
  fst (while_stack rec fuel (c :: stack) lines_in_slice st) = OutOfFuel.
Proof.
  revert st c stack lines_in_slice.
  induction fuel as [|fuel IH]; intros st c stack lines_in_slice Htop Hc;
    [reflexivity|].
  cbn [while_stack].
  destruct (closed_node c Hc) as (n0 & ps & p & Hn0 & Hps & Hp).
  destruct (same_topology_node _ _ _ _ Htop Hn0) as (n & Hn & Hn_eq).
  rewrite (bind_run _ _ _ _ _ (get_node_run _ _ _ Hn)).
  assert (Hread : read_list (parents n) st = (Done (ps ++ [p]), st)).
  { unfold read_list, deref. destruct Htop as [Hlists _]. rewrite Hlists.
    replace (parents n) with (parents n0)
      by (unfold topology_of in Hn_eq; congruence).
    unfold deref in Hps. rewrite Hps. reflexivity. }
  rewrite (bind_run _ _ _ _ _ Hread).
  pose proof (safe_parents_registered c n0 Hn0) as Hvalid.
  rewrite Hps in Hvalid.
  destruct (for_parents_goes_through st c (ps ++ [p]) stack lines_in_slice
              Htop (ex_intro _ n0 Hn0) Hvalid)
    as (lines' & st' & Hfor & Htop').
  rewrite (bind_run _ _ _ _ _ Hfor). cbn [fst snd].
  rewrite reverse_app, reverse_singleton. cbn [app].
  apply IH; assumption.
Qed.
End divergence.

(** When every node is safe and the seed lies in a set of nodes closed
    under "last parent", [build_slice] uses up any amount of fuel: the stack
    never empties. *)
Lemma build_slice_diverges (st : state) (nodes : list nat) (fuel seed : nat)
    (vars : gset string) :
  all_safe st = true → closed_under_last_parent st nodes = true →
  seed ∈ nodes →
  fst (build_slice fuel seed vars st) = OutOfFuel.
Proof.
  intros Hsafe Hclosed Hseed. destruct fuel as [|fuel]; [reflexivity|].
  cbn [build_slice]. unfold bind at 1.
  pose proof (update_relevant_set_topology seed vars st) as Hupd.
  destruct (update_relevant_set seed vars st) as [[[]|e|] st'] eqn:Hrun;
    try discriminate Hrun.
  eapply while_stack_diverges; eassumption.
Qed.

Lemma scenario_D_built : fst (gen_cfg scenario_D init_state) = Done tt.
Proof. vm_compute. reflexivity. Qed.

(** C1 at the loop [i = 0; while i < 3: i = i + 1]: the query for line 2 and
    variable [i] never returns, whatever the fuel; the test node 2 and the
    body node 3 are each other's last parent, so the stack never empties. *)
Theorem scenario_D_slice_never_returns (fuel : nat) :
  fst (slice fuel 2 "i" (cfg_of scenario_D)) = OutOfFuel.
Proof.
  unfold slice, bind at 1, get.
  replace (find_start 2 (REGISTRY (cfg_of scenario_D))) with (Some 3%nat)
    by (vm_compute; reflexivity).
  unfold bind.
  pose proof (build_slice_diverges (cfg_of scenario_D) [2; 3]%nat fuel 3
                (set_of_str "i")) as Hdiv.
  destruct (build_slice fuel 3 (set_of_str "i") (cfg_of scenario_D))
    as [[lines|e|] st'].
  - discriminate Hdiv; [vm_compute; reflexivity..|set_solver].
  - discriminate Hdiv; [vm_compute; reflexivity..|set_solver].
  - reflexivity.
Qed.

(** ** The builder keeps its invariant *)

Lemma new_list_inv (base : nat) (l : list nat) (st : state) (p : loc)
    (st' : state) :
  builder_inv base st → Forall (registered st) l →
  new_list l st = (Done p, st') →
  builder_inv base st' ∧ REGISTRY st' = REGISTRY st ∧ (base ≤ p)%nat.
Proof.
  intros (Hbase & Hlists & Hnodes) Hl Hrun.
  unfold new_list in Hrun. injection Hrun as <- <-.
  split; [|split; [reflexivity|exact Hbase]].
  split; [|split].
  - cbn. rewrite length_app. lia.
  - intros q Hq. unfold deref, registered. cbn.
    destruct (decide (q < length (lists st))%nat) as [Hlt|Hge].
    + rewrite lookup_app_l by exact Hlt. apply (Hlists q Hq).
    + rewrite lookup_app_r by lia.
      destruct (q - length (lists st))%nat as [|k]; cbn; [exact Hl|].
      constructor.
  - exact Hnodes.
Qed.

Lemma register_node_inv (base : nat) (p : loc) (a : ast) (st : state)
    (v : nat) (st' : state) :
  builder_inv base st → (base ≤ p)%nat →
  register_node p a st = (Done v, st') →
  builder_inv base st' ∧ lists st' = lists st ∧
  length (REGISTRY st') = S (length (REGISTRY st)) ∧
  v = length (REGISTRY st).
Proof.
  intros (Hbase & Hlists & Hnodes) Hp Hrun.
  unfold register_node in Hrun. injection Hrun as <- <-.
  assert (Hlen : length (REGISTRY st ++
                   [mkCFGNode (REGISTRY_IDX st) p a [] [] ∅ ∅])
                 = S (length (REGISTRY st))).
  { rewrite length_app. cbn. lia. }
  split; [|split; [reflexivity|split; [exact Hlen|reflexivity]]].
  split; [exact Hbase|split].
  - intros q Hq. eapply Forall_impl; [apply (Hlists q Hq)|].
    intros x Hx. unfold registered in *. cbn. lia.
  - intros i n Hi. cbn in Hi. apply lookup_app_Some in Hi as [Hi|[Hge Hi]].
    + apply Hnodes, Hi.
    + apply list_lookup_singleton_Some in Hi as [Hi <-]. cbn.
      split; [unfold REGISTRY_IDX; lia|]. split; [constructor|exact Hp].
Qed.

Lemma alter_node_inv (base : nat) (f : CFGNode → CFGNode) (r : nat)
    (st : state) (st' : state) :
  (∀ n, rid (f n) = rid n ∧ parents (f n) = parents n ∧
        (NoDup (children n) → NoDup (children (f n)))) →
  builder_inv base st →
  alter_node f r st = (Done tt, st') →
  builder_inv base st' ∧ lists st' = lists st ∧
  length (REGISTRY st') = length (REGISTRY st).
Proof.
  intros Hf (Hbase & Hlists & Hnodes) Hrun.
  unfold alter_node, modify in Hrun. injection Hrun as <-.
  assert (Hlen : length (alter f r (REGISTRY st)) = length (REGISTRY st))
    by apply length_alter.
  split; [|split; [reflexivity|exact Hlen]].
  split; [exact Hbase|split].
  - intros q Hq. eapply Forall_impl; [apply (Hlists q Hq)|].
    intros x Hx. unfold registered in *. cbn. lia.
  - intros i n Hi. cbn in Hi.
    destruct (decide (r = i)) as [->|Hne].
    + rewrite list_lookup_alter_eq in Hi.
      destruct (REGISTRY st !! i) as [n0|] eqn:Hn0; [|discriminate Hi].
      injection Hi as <-. destruct (Hnodes i n0 Hn0) as (Hrid & Hdup & Hpar).
      destruct (Hf n0) as (Hf1 & Hf2 & Hf3).
      rewrite Hf1, Hf2. auto.
    + rewrite list_lookup_alter_ne in Hi by exact Hne. apply Hnodes, Hi.
Qed.

Lemma list_append_inv (base : nat) (q : loc) (x : nat) (st st' : state) :
  builder_inv base st → registered st x →
  list_append q x st = (Done tt, st') →
  builder_inv base st' ∧ REGISTRY st' = REGISTRY st.
Proof.
  intros (Hbase & Hlists & Hnodes) Hx Hrun.
  unfold list_append, modify in Hrun. injection Hrun as <-.
  split; [|reflexivity]. split; [|split].
  - cbn. rewrite length_alter. exact Hbase.
  - intros q' Hq'. unfold deref, registered. cbn.
    destruct (decide (q = q')) as [->|Hne].
    + rewrite list_lookup_alter_eq. specialize (Hlists q' Hq').
      unfold deref in Hlists. destruct (lists st !! q') as [l|]; cbn.
      * apply Forall_app. split; [exact Hlists|]. constructor; [exact Hx|].
        constructor.
      * constructor.
    + rewrite list_lookup_alter_ne by exact Hne. apply (Hlists q' Hq').
  - exact Hnodes.
Qed.

Lemma for_each_inv {A} (Inv : state → Prop) (body : A → M unit)
    (xs : list A) (st st' : state) :
  (∀ x st1 st2, Inv st1 → body x st1 = (Done tt, st2) → Inv st2) →
  Inv st → for_each body xs st = (Done tt, st') → Inv st'.
Proof.
  intros Hbody. revert st. induction xs as [|x xs IH]; intros st Hinv Hrun.
  - injection Hrun as <-. exact Hinv.
  - cbn [for_each] in Hrun.
    apply bind_Done in Hrun as ([] & st1 & Hx & Hrun).
    eapply IH; [|exact Hrun]. eapply Hbody; eassumption.
Qed.

(** What the builder's loops keep: the invariant, the list objects or the
    registry size as the case may be. *)
Lemma add_child_inv (base : nat) (self c : nat) (st st' : state) :
  builder_inv base st → add_child self c st = (Done tt, st') →
  builder_inv base st' ∧ lists st' = lists st ∧
  length (REGISTRY st') = length (REGISTRY st).
Proof.
  intros Hinv Hrun. unfold add_child in Hrun.
  eapply alter_node_inv; [|exact Hinv|exact Hrun].
  intros n. cbv beta. destruct (decide _) as [Hin|Hnotin]; cbn; auto.
  split; [reflexivity|]. split; [reflexivity|]. intros Hdup.
  apply NoDup_app. split; [exact Hdup|]. split; [|apply NoDup_singleton].
  intros y Hy Hy'. apply list_elem_of_singleton in Hy'. subst y. auto.
Qed.

Lemma CFGNode_init_inv (base : nat) (p : loc) (a : ast) (st : state)
    (self : nat) (st' : state) :
  builder_inv base st → (base ≤ p)%nat →
  CFGNode_init p a st = (Done self, st') →
  builder_inv base st' ∧
  (length (REGISTRY st) ≤ length (REGISTRY st'))%nat ∧
  registered st' self.
Proof.
  intros Hinv Hp Hrun. unfold CFGNode_init in Hrun.
  apply bind_Done in Hrun as (v & st1 & Hreg & Hrun).
  apply bind_Done in Hrun as (ps & st2 & Hread & Hrun).
  injection Hread as <- <-.
  apply bind_Done in Hrun as ([] & st3 & Hloop & Hrun).
  apply bind_Done in Hrun as ([] & st4 & Hreset & Hrun).
  injection Hrun as <- <-.
  destruct (register_node_inv _ _ _ _ _ _ Hinv Hp Hreg)
    as (Hinv1 & _ & Hlen1 & ->).
  assert (Hloop' : builder_inv base st3 ∧
                   length (REGISTRY st3) = length (REGISTRY st1)).
  { unfold CFGNode_update_children in Hloop.
    eapply (for_each_inv
              (fun s => builder_inv base s ∧
                        length (REGISTRY s) = length (REGISTRY st1)));
      [|split; [exact Hinv1|reflexivity]|exact Hloop].
    intros x s1 s2 [Hs1 Hl1] Hx.
    destruct (add_child_inv _ _ _ _ _ Hs1 Hx) as (Hs2 & _ & Hl2).
    split; [exact Hs2|congruence]. }
  destruct Hloop' as [Hinv3 Hlen3].
  destruct (alter_node_inv base (set_children []) _ _ _
              ltac:(intros n; cbn; repeat split; intros; constructor)
              Hinv3 Hreset) as (Hinv4 & _ & Hlen4).
  split; [exact Hinv4|]. unfold registered. split; lia.
Qed.

Lemma add_parent_inv (base : nat) (self x : nat) (st st' : state) :
  builder_inv base st → registered st x →
  add_parent self x st = (Done tt, st') →
  builder_inv base st' ∧ REGISTRY st' = REGISTRY st.
Proof.
  intros Hinv Hx Hrun. unfold add_parent in Hrun.
  apply bind_Done in Hrun as (s & st1 & Hget & Hrun).
  injection Hget as <- <-.
  destruct (node_of st self) as [n|].
  - destruct (decide _).
    + injection Hrun as <-. auto.
    + eapply list_append_inv; eassumption.
  - injection Hrun as <-. auto.
Qed.

Lemma add_parents_inv (base : nat) (self : nat) (ps : loc) (st st' : state) :
  builder_inv base st → (base ≤ ps)%nat →
  add_parents self ps st = (Done tt, st') →
  builder_inv base st' ∧ REGISTRY st' = REGISTRY st.
Proof.
  intros Hinv Hps Hrun. unfold add_parents in Hrun.
  apply bind_Done in Hrun as (l & st1 & Hread & Hrun).
  injection Hread as <- <-.
  assert (Hl : Forall (registered st) (deref st ps))
    by (destruct Hinv as (_ & Hlists & _); apply Hlists, Hps).
  revert Hl Hrun.
  generalize (deref st ps) as l. intros l Hl Hrun.
  enough (Hgoal : (builder_inv base st' ∧ REGISTRY st' = REGISTRY st) ∧ True)
    by apply Hgoal.
  revert st Hinv Hl Hrun.
  induction l as [|x l IH]; intros st Hinv Hl Hrun.
  - injection Hrun as <-. auto.
  - cbn [for_each] in Hrun.
    apply bind_Done in Hrun as ([] & st1 & Hx & Hrun).
    apply Forall_cons in Hl as [Hx_reg Hl].
    destruct (add_parent_inv _ _ _ _ _ Hinv Hx_reg Hx) as [Hinv1 Hreg1].
    assert (Hl1 : Forall (registered st1) l).
    { eapply Forall_impl; [exact Hl|]. unfold registered. rewrite Hreg1. auto. }
    destruct (IH st1 Hinv1 Hl1 Hrun) as [[Hinv' Hreg'] _].
    split; [|exact I]. split; [exact Hinv'|congruence].
Qed.

Lemma update_control_set_inv (base : nat) (self : nat) (pred : Z)
    (st st' : state) :
  builder_inv base st → update_control_set self pred st = (Done tt, st') →
  builder_inv base st' ∧ length (REGISTRY st') = length (REGISTRY st).
Proof.
  intros Hinv Hrun. unfold update_control_set in Hrun.
  pose proof (fun Hf => alter_node_inv base _ self st st' Hf Hinv Hrun)
    as Hstep.
  destruct Hstep as (Hinv' & _ & Hlen); [|auto].
  intros n. cbv beta. destruct (decide _); cbn; auto.
Qed.

Lemma walk_Module (body : list ast) (p : loc) :
  walk (Module_ body) p = on_module walk body p.
Proof. reflexivity. Qed.

Lemma walk_Assign (l : Z) (targets : list ast) (value : ast) (p : loc) :
  walk (Assign l targets value) p
  = on_assign walk (Assign l targets value) targets value p.
Proof. reflexivity. Qed.

Lemma walk_Expr (l : Z) (value : ast) (p : loc) :
  walk (Expr l value) p = on_expr walk (Expr l value) value p.
Proof. reflexivity. Qed.

Lemma walk_While (l : Z) (test : ast) (body orelse : list ast) (p : loc) :
  walk (While l test body orelse) p = on_while walk test body p.
Proof. reflexivity. Qed.

Lemma walk_If (l : Z) (test : ast) (body orelse : list ast) (p : loc) :
  walk (If l test body orelse) p = on_if walk test body orelse p.
Proof. reflexivity. Qed.

Lemma walk_BinOp (l : Z) (lhs rhs : ast) (p : loc) :
  walk (BinOp l lhs rhs) p = on_binop walk lhs rhs p.
Proof. reflexivity. Qed.

Lemma walk_Compare (l : Z) (lhs : ast) (comparators : list ast) (p : loc) :
  walk (Compare l lhs comparators) p = on_compare walk lhs comparators p.
Proof. reflexivity. Qed.

Lemma walk_UnaryOp (l : Z) (operand : ast) (p : loc) :
  walk (UnaryOp l operand) p = on_unaryop walk operand p.
Proof. reflexivity. Qed.

Lemma walk_leaf (node : ast) (p : loc) :
  match node with
  | AnnAssign _ _ _ | Name _ _ | Constant _ _ | Other _ _ => True
  | _ => False
  end →
  walk node p = ret p.
Proof.
  destruct node; intros []; cbn [walk]; destruct (hasattr_PyCFG _);
    reflexivity.
Qed.

Section walk_invariant.
Variable base : nat.

Lemma walk_body_keeps (body : list ast) :
  Forall (walk_keeps base) body →
  ∀ p st p' st',
    builder_inv base st → (base ≤ p)%nat →
    walk_body walk body p st = (Done p', st') →
    builder_inv base st' ∧
    (length (REGISTRY st) ≤ length (REGISTRY st'))%nat ∧
    (base ≤ p')%nat.
Proof.
  induction 1 as [|n body Hn Hbody IH]; intros p st p' st' Hinv Hp Hrun.
  - injection Hrun as <- <-. auto.
  - cbn [walk_body] in Hrun.
    apply bind_Done in Hrun as (p1 & st1 & Hwalk & Hrun).
    destruct (Hn _ _ _ _ Hinv Hp Hwalk) as (Hinv1 & Hlen1 & Hp1).
    destruct (IH _ _ _ _ Hinv1 Hp1 Hrun) as (Hinv' & Hlen' & Hp').
    split; [exact Hinv'|]. split; [lia|exact Hp'].
Qed.

Lemma mark_keeps (test : ast) (nodes : list nat) (st st' : state) :
  builder_inv base st →
  for_each (fun body_node =>
              l <- get_lineno test ;;
              update_control_set body_node l) nodes st = (Done tt, st') →
  builder_inv base st' ∧ length (REGISTRY st') = length (REGISTRY st).
Proof.
  intros Hinv Hrun.
  eapply (for_each_inv
            (fun s => builder_inv base s ∧
                      length (REGISTRY s) = length (REGISTRY st)));
    [|split; [exact Hinv|reflexivity]|exact Hrun].
  intros x s1 s2 [Hs1 Hl1] Hx.
  apply bind_Done in Hx as (l & s & Hget & Hx).
  unfold get_lineno in Hget.
  destruct (attr_lineno test); [|discriminate Hget].
  injection Hget as <- <-.
  destruct (update_control_set_inv _ _ _ _ _ Hs1 Hx) as [Hs2 Hl2].
  split; [exact Hs2|congruence].
Qed.

Lemma walk_branch_keeps (test : ast) (body : list ast) :
  Forall (walk_keeps base) body →
  ∀ p st p' st',
    builder_inv base st → (base ≤ p)%nat →
    walk_branch walk test body p st = (Done p', st') →
    builder_inv base st' ∧
    (length (REGISTRY st) ≤ length (REGISTRY st'))%nat ∧
    (base ≤ p')%nat.
Proof.
  induction 1 as [|n body Hn Hbody IH]; intros p st p' st' Hinv Hp Hrun.
  - injection Hrun as <- <-. auto.
  - cbn [walk_branch] in Hrun.
    apply bind_Done in Hrun as (p1 & st1 & Hwalk & Hrun).
    apply bind_Done in Hrun as (ns & st2 & Hread & Hrun).
    injection Hread as <- <-.
    apply bind_Done in Hrun as ([] & st3 & Hmark & Hrun).
    destruct (Hn _ _ _ _ Hinv Hp Hwalk) as (Hinv1 & Hlen1 & Hp1).
    destruct (mark_keeps _ _ _ _ Hinv1 Hmark) as (Hinv3 & Hlen3).
    destruct (IH _ _ _ _ Hinv3 Hp1 Hrun) as (Hinv' & Hlen' & Hp').
    split; [exact Hinv'|]. split; [lia|exact Hp'].
Qed.

(** A new node followed by the walk of a sub-expression from the list
    that holds just that node: [on_assign] and [on_expr]. *)
Lemma node_then_walk_keeps (node value : ast) :
  walk_keeps base value →
  ∀ p st p' st',
    builder_inv base st → (base ≤ p)%nat →
    (n <- CFGNode_init p node ;; q <- new_list [n] ;; walk value q) st
      = (Done p', st') →
    builder_inv base st' ∧
    (length (REGISTRY st) ≤ length (REGISTRY st'))%nat ∧
    (base ≤ p')%nat.
Proof.
  intros Hvalue p st p' st' Hinv Hp Hrun.
  apply bind_Done in Hrun as (n & st1 & Hinit & Hrun).
  apply bind_Done in Hrun as (q & st2 & Hnew & Hrun).
  destruct (CFGNode_init_inv _ _ _ _ _ _ Hinv Hp Hinit)
    as (Hinv1 & Hlen1 & Hn).
  destruct (new_list_inv base [n] _ _ _ Hinv1
              ltac:(constructor; [exact Hn|constructor]) Hnew)
    as (Hinv2 & Hreg2 & Hq).
  destruct (Hvalue _ _ _ _ Hinv2 Hq Hrun) as (Hinv' & Hlen' & Hp').
  split; [exact Hinv'|]. rewrite Hreg2 in Hlen'. split; [lia|exact Hp'].
Qed.

Lemma walk_keeps_all (node : ast) : walk_keeps base node.
Proof.
  induction node as
    [body Hbody
    |l targets value Htargets IHvalue
    |l target annotation IHtarget IHannotation
    |l value IHvalue
    |l test body orelse IHtest Hbody Horelse
    |l test body orelse IHtest Hbody Horelse
    |l id
    |l value
    |l lhs rhs IHlhs IHrhs
    |l lhs comparators IHlhs Hcomparators
    |l operand IHoperand
    |l cls] using ast_nested_ind;
    intros p st p' st' Hinv Hp Hrun.
  - (* Module *)
    rewrite walk_Module in Hrun.
    eapply walk_body_keeps; eassumption.
  - (* Assign *)
    rewrite walk_Assign in Hrun. unfold on_assign in Hrun.
    destruct (decide _); [discriminate Hrun|].
    eapply node_then_walk_keeps; eassumption.
  - (* AnnAssign *)
    rewrite walk_leaf in Hrun by exact I. injection Hrun as <- <-. auto.
  - (* Expr *)
    rewrite walk_Expr in Hrun. unfold on_expr in Hrun.
    eapply node_then_walk_keeps; eassumption.
  - (* While *)
    rewrite walk_While in Hrun. unfold on_while in Hrun.
    apply bind_Done in Hrun as (n & st1 & Hinit & Hrun).
    apply bind_Done in Hrun as (q & st2 & Hnew & Hrun).
    apply bind_Done in Hrun as (t & st3 & Hwalk & Hrun).
    apply bind_Done in Hrun as (tn & st4 & Hread & Hrun).
    injection Hread as <- <-.
    destruct (decide _); [|discriminate Hrun].
    apply bind_Done in Hrun as (p1 & st5 & Hwalk1 & Hrun).
    apply bind_Done in Hrun as ([] & st6 & Hadd & Hrun).
    injection Hrun as <- <-.
    destruct (CFGNode_init_inv _ _ _ _ _ _ Hinv Hp Hinit)
      as (Hinv1 & Hlen1 & Hn).
    destruct (new_list_inv base [n] _ _ _ Hinv1
                ltac:(constructor; [exact Hn|constructor]) Hnew)
      as (Hinv2 & Hreg2 & Hq).
    destruct (IHtest _ _ _ _ Hinv2 Hq Hwalk) as (Hinv3 & Hlen3 & Ht).
    destruct (walk_body_keeps body Hbody _ _ _ _ Hinv3 Ht Hwalk1)
      as (Hinv5 & Hlen5 & Hp1).
    destruct (add_parents_inv _ _ _ _ _ Hinv5 Hp1 Hadd) as (Hinv6 & Hreg6).
    split; [exact Hinv6|]. rewrite Hreg2 in Hlen3. rewrite Hreg6.
    split; [lia|exact Ht].
  - (* If *)
    rewrite walk_If in Hrun. unfold on_if in Hrun.
    apply bind_Done in Hrun as (n & st1 & Hinit & Hrun).
    apply bind_Done in Hrun as (q & st2 & Hnew & Hrun).
    apply bind_Done in Hrun as (t & st3 & Hwalk & Hrun).
    apply bind_Done in Hrun as (tn & st4 & Hread & Hrun).
    injection Hread as <- <-.
    destruct (decide _); [|discriminate Hrun].
    apply bind_Done in Hrun as (p1 & st5 & Hwalk1 & Hrun).
    apply bind_Done in Hrun as (p2 & st6 & Hwalk2 & Hrun).
    apply bind_Done in Hrun as (l1 & st7 & Hread1 & Hrun).
    injection Hread1 as <- <-.
    apply bind_Done in Hrun as (l2 & st8 & Hread2 & Hrun).
    injection Hread2 as <- <-.
    destruct (CFGNode_init_inv _ _ _ _ _ _ Hinv Hp Hinit)
      as (Hinv1 & Hlen1 & Hn).
    destruct (new_list_inv base [n] _ _ _ Hinv1
                ltac:(constructor; [exact Hn|constructor]) Hnew)
      as (Hinv2 & Hreg2 & Hq).
    destruct (IHtest _ _ _ _ Hinv2 Hq Hwalk) as (Hinv3 & Hlen3 & Ht).
    destruct (walk_branch_keeps test body Hbody _ _ _ _ Hinv3 Ht Hwalk1)
      as (Hinv5 & Hlen5 & Hp1).
    destruct (walk_branch_keeps test orelse Horelse _ _ _ _ Hinv5 Ht Hwalk2)
      as (Hinv6 & Hlen6 & Hp2).
    assert (Hvalid : Forall (registered st6)
                       (deref st6 p1 ++ deref st6 p2)).
    { destruct Hinv6 as (_ & Hlists & _).
      apply Forall_app. split; apply Hlists; assumption. }
    destruct (new_list_inv base _ _ _ _ Hinv6 Hvalid Hrun)
      as (Hinv' & Hreg' & Hp').
    split; [exact Hinv'|]. rewrite Hreg2 in Hlen3. rewrite Hreg'.
    split; [lia|exact Hp'].
  - (* Name *)
    rewrite walk_leaf in Hrun by exact I. injection Hrun as <- <-. auto.
  - (* Constant *)
    rewrite walk_leaf in Hrun by exact I. injection Hrun as <- <-. auto.
  - (* BinOp *)
    rewrite walk_BinOp in Hrun. unfold on_binop in Hrun.
    apply bind_Done in Hrun as (p1 & st1 & Hleft & Hrun).
    destruct (IHlhs _ _ _ _ Hinv Hp Hleft) as (Hinv1 & Hlen1 & Hp1).
    destruct (IHrhs _ _ _ _ Hinv1 Hp1 Hrun) as (Hinv' & Hlen' & Hp').
    split; [exact Hinv'|]. split; [lia|exact Hp'].
  - (* Compare *)
    rewrite walk_Compare in Hrun. unfold on_compare in Hrun.
    apply bind_Done in Hrun as (p1 & st1 & Hleft & Hrun).
    destruct (IHlhs _ _ _ _ Hinv Hp Hleft) as (Hinv1 & Hlen1 & Hp1).
    destruct Hcomparators as [|c comparators Hc _]; [discriminate Hrun|].
    destruct (Hc _ _ _ _ Hinv1 Hp1 Hrun) as (Hinv' & Hlen' & Hp').
    split; [exact Hinv'|]. split; [lia|exact Hp'].
  - (* UnaryOp *)
    rewrite walk_UnaryOp in Hrun. unfold on_unaryop in Hrun.
    eapply IHoperand; eassumption.
  - (* Other *)
    rewrite walk_leaf in Hrun by exact I. injection Hrun as <- <-. auto.
Qed.
End walk_invariant.

(** ** The closing pass links every child *)

Lemma only_children_grow_refl (st : state) : only_children_grow st st.
Proof.
  split; [reflexivity|]. split; [reflexivity|]. intros i n Hn.
  exists n. auto.
Qed.

Lemma only_children_grow_trans (st1 st2 st3 : state) :
  only_children_grow st1 st2 → only_children_grow st2 st3 →
  only_children_grow st1 st3.
Proof.
  intros (Hl1 & Hn1 & Hg1) (Hl2 & Hn2 & Hg2).
  split; [congruence|]. split; [congruence|]. intros i n Hn.
  destruct (Hg1 i n Hn) as (n2 & Hn2' & Hrid2 & Hpar2 & Hch2).
  destruct (Hg2 i n2 Hn2') as (n3 & Hn3 & Hrid3 & Hpar3 & Hch3).
  exists n3. repeat split; [exact Hn3|congruence|congruence|auto].
Qed.

Lemma has_child_grow (st st' : state) (p c : nat) :
  only_children_grow st st' → has_child st p c → has_child st' p c.
Proof.
  intros (_ & _ & Hgrow) (n & Hn & Hc).
  destruct (Hgrow p n Hn) as (n' & Hn' & _ & _ & Hch).
  exists n'. auto.
Qed.

Lemma add_child_links (self c : nat) (st st' : state) :
  add_child self c st = (Done tt, st') →
  only_children_grow st st' ∧ (registered st self → has_child st' self c).
Proof.
  intros Hrun. unfold add_child, alter_node, modify in Hrun.
  injection Hrun as <-. split.
  - split; [reflexivity|]. split; [apply length_alter|]. intros i n Hn. cbn.
    destruct (decide (self = i)) as [->|Hne].
    + rewrite list_lookup_alter_eq, Hn. cbn. eexists. split; [reflexivity|].
      destruct (decide _); cbn; repeat split; auto.
      intros c' Hc'. apply elem_of_app. auto.
    + rewrite list_lookup_alter_ne by exact Hne. exists n. auto.
  - intros Hself. apply lookup_lt_is_Some in Hself as [n Hn].
    unfold has_child. cbn. rewrite list_lookup_alter_eq, Hn. cbn.
    eexists. split; [reflexivity|].
    destruct (decide _) as [Hin|Hnotin]; cbn; [exact Hin|].
    apply elem_of_app. right. apply list_elem_of_singleton. reflexivity.
Qed.

Lemma link_parents (c : nat) (ps : list nat) (st st' : state) :
  for_each (fun p => add_child p c) ps st = (Done tt, st') →
  only_children_grow st st' ∧
  ∀ p, p ∈ ps → registered st p → has_child st' p c.
Proof.
  revert st. induction ps as [|p0 ps IH]; intros st Hrun.
  - injection Hrun as <-. split; [apply only_children_grow_refl|].
    intros p Hp. apply elem_of_nil in Hp. destruct Hp.
  - cbn [for_each] in Hrun.
    apply bind_Done in Hrun as ([] & st1 & Hadd & Hrun).
    destruct (add_child_links _ _ _ _ Hadd) as [Hgrow1 Hlink1].
    destruct (IH st1 Hrun) as [Hgrow Hlink].
    split; [eapply only_children_grow_trans; eassumption|].
    intros p Hp Hreg. apply elem_of_cons in Hp as [->|Hp].
    + eapply has_child_grow; [exact Hgrow|]. apply Hlink1, Hreg.
    + apply Hlink; [exact Hp|].
      unfold registered in *. destruct Hgrow1 as (_ & Hlen & _). lia.
Qed.

Lemma link_nodes (ns : list CFGNode) (st st' : state) :
  for_each (fun node =>
              ps <- read_list (parents node) ;;
              for_each (fun p => add_child p (rid node)) ps) ns st
    = (Done tt, st') →
  only_children_grow st st' ∧
  ∀ node p, node ∈ ns → p ∈ deref st (parents node) → registered st p →
            has_child st' p (rid node).
Proof.
  revert st. induction ns as [|n0 ns IH]; intros st Hrun.
  - injection Hrun as <-. split; [apply only_children_grow_refl|].
    intros node p Hnode. apply elem_of_nil in Hnode. destruct Hnode.
  - cbn [for_each] in Hrun.
    apply bind_Done in Hrun as ([] & st1 & Hnode0 & Hrun).
    apply bind_Done in Hnode0 as (ps & st0 & Hread & Hnode0).
    injection Hread as <- <-.
    destruct (link_parents _ _ _ _ Hnode0) as [Hgrow1 Hlink1].
    destruct (IH st1 Hrun) as [Hgrow Hlink].
    split; [eapply only_children_grow_trans; eassumption|].
    intros node p Hnode Hp Hreg. apply elem_of_cons in Hnode as [->|Hnode].
    + eapply has_child_grow; [exact Hgrow|]. apply Hlink1; assumption.
    + destruct Hgrow1 as (Hlists & Hlen & _).
      apply Hlink; [exact Hnode| |unfold registered in *; lia].
      unfold deref in *. rewrite Hlists. exact Hp.
Qed.

Lemma PyCFG_update_children_inv (base : nat) (st st' : state) :
  builder_inv base st → PyCFG_update_children st = (Done tt, st') →
  builder_inv base st'.
Proof.
  intros Hinv Hrun. unfold PyCFG_update_children in Hrun.
  apply bind_Done in Hrun as (s & st1 & Hget & Hrun).
  injection Hget as <- <-.
  eapply (for_each_inv (builder_inv base)); [|exact Hinv|exact Hrun].
  intros node s1 s2 Hs1 Hnode.
  apply bind_Done in Hnode as (ps & s0 & Hread & Hnode).
  injection Hread as <- <-.
  eapply (for_each_inv (builder_inv base)); [|exact Hs1|exact Hnode].
  intros p s3 s4 Hs3 Hp. eapply add_child_inv; eassumption.
Qed.

Lemma occurrences_absent (c : nat) (l : list nat) :
  c ∉ l → occurrences c l = 0%nat.
Proof.
  unfold occurrences. induction l as [|x l IH]; intros Hc; [reflexivity|].
  apply not_elem_of_cons in Hc as [Hne Hc].
  rewrite filter_cons_False by congruence. apply IH, Hc.
Qed.

Lemma occurrences_NoDup (c : nat) (l : list nat) :
  NoDup l → c ∈ l → occurrences c l = 1%nat.
Proof.
  induction 1 as [|x l Hx Hdup IH]; intros Hc.
  - apply elem_of_nil in Hc. destruct Hc.
  - unfold occurrences. destruct (decide (x = c)) as [->|Hne].
    + rewrite filter_cons_True by reflexivity. cbn. f_equal.
      apply occurrences_absent, Hx.
    + rewrite filter_cons_False by exact Hne.
      apply elem_of_cons in Hc as [->|Hc]; [congruence|]. apply IH, Hc.
Qed.

Lemma reset_registry_inv (st : state) :
  builder_inv (length (lists st)) (set_REGISTRY [] st).
Proof.
  split; [reflexivity|]. split.
  - intros q Hq. unfold deref. cbn.
    rewrite lookup_ge_None_2 by exact Hq. constructor.
  - intros i n Hi. cbn in Hi. rewrite lookup_nil in Hi. discriminate Hi.
Qed.

(** C8: when [gen_cfg] returns, every node [C] of the registry appears
    exactly once in the children of each node [P] that its parent list
    holds, back-edges of loops included. *)
Theorem children_inverse_of_parents (tree : ast) (st st' : state)
    (C P : nat) (nC : CFGNode) :
  gen_cfg tree st = (Done tt, st') →
  node_of st' C = Some nC →
  P ∈ deref st' (parents nC) →
  ∃ nP, node_of st' P = Some nP ∧ occurrences C (children nP) = 1%nat.
Proof.
  intros Hrun HC HP. unfold gen_cfg in Hrun.
  apply bind_Done in Hrun as ([] & st0 & Hreset & Hrun).
  injection Hreset as <-.
  apply bind_Done in Hrun as (founder & st2 & Hinit & Hrun).
  apply bind_Done in Hrun as (last_node & st7 & Hgen & Hrun).
  injection Hrun as <-.
  unfold PyCFG_init in Hinit.
  apply bind_Done in Hinit as (l0 & st1 & Hnew0 & Hinit).
  unfold PyCFG_gen_cfg in Hgen.
  apply bind_Done in Hgen as (l1 & st3 & Hnew1 & Hgen).
  apply bind_Done in Hgen as (frontier & st4 & Hwalk & Hgen).
  apply bind_Done in Hgen as (stop & st5 & Hstop & Hgen).
  apply bind_Done in Hgen as ([] & st6 & Hpass & Hgen).
  injection Hgen as <- <-.
  set (base := length (lists st)).
  pose proof (reset_registry_inv st) as Hinv0. fold base in Hinv0.
  destruct (new_list_inv base [] _ _ _ Hinv0 ltac:(constructor) Hnew0)
    as (Hinv1 & _ & Hl0).
  destruct (CFGNode_init_inv _ _ _ _ _ _ Hinv1 Hl0 Hinit)
    as (Hinv2 & _ & Hfounder).
  destruct (new_list_inv base [founder] _ _ _ Hinv2
              ltac:(constructor; [exact Hfounder|constructor]) Hnew1)
    as (Hinv3 & _ & Hl1).
  destruct (walk_keeps_all base tree _ _ _ _ Hinv3 Hl1 Hwalk)
    as (Hinv4 & _ & Hfrontier).
  destruct (CFGNode_init_inv _ _ _ _ _ _ Hinv4 Hfrontier Hstop)
    as (Hinv5 & _ & _).
  pose proof (PyCFG_update_children_inv _ _ _ Hinv5 Hpass) as Hinv6.
  unfold PyCFG_update_children in Hpass.
  apply bind_Done in Hpass as (s & st5' & Hget & Hpass).
  injection Hget as <- <-.
  destruct (link_nodes _ _ _ Hpass) as [(Hlists & Hlen & Hgrow) Hlink].
  unfold node_of in *.
  assert (HC5 : is_Some (REGISTRY st5 !! C)).
  { apply lookup_lt_is_Some. rewrite <- Hlen.
    apply lookup_lt_is_Some. eauto. }
  destruct HC5 as [n5 Hn5].
  destruct (Hgrow C n5 Hn5) as (nC' & HnC' & Hrid & Hpar & _).
  rewrite HC in HnC'. injection HnC' as <-.
  destruct Hinv5 as (_ & Hlists5 & Hnodes5).
  destruct (Hnodes5 C n5 Hn5) as (Hrid5 & _ & Hbase5).
  assert (HP5 : P ∈ deref st5 (parents n5)).
  { unfold deref in *. rewrite <- Hlists, <- Hpar. exact HP. }
  assert (Hreg : registered st5 P).
  { specialize (Hlists5 _ Hbase5). rewrite Forall_forall in Hlists5.
    apply Hlists5, HP5. }
  destruct (Hlink n5 P (list_elem_of_lookup_2 _ _ _ Hn5) HP5 Hreg)
    as (nP & HnP & Hchild).
  exists nP. split; [exact HnP|]. rewrite Hrid5 in Hchild.
  destruct Hinv6 as (_ & _ & Hnodes6).
  destruct (Hnodes6 P nP HnP) as (_ & Hdup & _).
  apply occurrences_NoDup; assumption.
Qed.

(** The back-edge of scenario D: the body node 3 is a parent of the test
    node 2, and node 2 is once among the children of node 3. *)
Lemma children_inverse_of_parents_witness :
  ∃ nP, node_of (cfg_of scenario_D) 3 = Some nP ∧
        occurrences 2 (children nP) = 1%nat.
Proof.
  eapply (children_inverse_of_parents scenario_D init_state
            (cfg_of scenario_D) 2 3).
  - vm_compute. reflexivity.
  - vm_compute. reflexivity.
  - vm_compute. apply list_elem_of_In. cbn. auto.
Defined.

(** * Further properties of the builder *)

(** The stages of a [gen_cfg] run that returns. *)
Lemma gen_cfg_stages (tree : ast) (st st' : state) :
  gen_cfg tree st = (Done tt, st') →
  ∃ l0 st1 founder st2 l1 st3 frontier st4 stop st5,
    new_list [] (set_REGISTRY [] st) = (Done l0, st1) ∧
    CFGNode_init l0 (Expr 0 (Name 1 "start")) st1 = (Done founder, st2) ∧
    new_list [founder] st2 = (Done l1, st3) ∧
    walk tree l1 st3 = (Done frontier, st4) ∧
    CFGNode_init frontier (Expr 0 (Name 1 "stop")) st4 = (Done stop, st5) ∧
    PyCFG_update_children st5 = (Done tt, st').
Proof.
  intros Hrun. unfold gen_cfg in Hrun.
  apply bind_Done in Hrun as ([] & st0 & Hreset & Hrun).
  injection Hreset as <-.
  apply bind_Done in Hrun as (founder & st2 & Hinit & Hrun).
  apply bind_Done in Hrun as (last_node & st7 & Hgen & Hrun).
  injection Hrun as <-.
  unfold PyCFG_init in Hinit.
  apply bind_Done in Hinit as (l0 & st1 & Hnew0 & Hinit).
  unfold PyCFG_gen_cfg in Hgen.
  apply bind_Done in Hgen as (l1 & st3 & Hnew1 & Hgen).
  apply bind_Done in Hgen as (frontier & st4 & Hwalk & Hgen).
  apply bind_Done in Hgen as (stop & st5 & Hstop & Hgen).
  apply bind_Done in Hgen as ([] & st6 & Hpass & Hgen).
  injection Hgen as <- <-.
  exists l0, st1, founder, st2, l1, st3, frontier, st4, stop, st5. auto 10.
Qed.

Lemma gen_cfg_inv (tree : ast) (st st' : state) :
  gen_cfg tree st = (Done tt, st') → builder_inv (length (lists st)) st'.
Proof.
  intros Hrun.
  destruct (gen_cfg_stages _ _ _ Hrun)
    as (l0 & st1 & founder & st2 & l1 & st3 & frontier & st4 & stop & st5 &
        Hnew0 & Hinit & Hnew1 & Hwalk & Hstop & Hpass).
  set (base := length (lists st)).
  pose proof (reset_registry_inv st) as Hinv0. fold base in Hinv0.
  destruct (new_list_inv base [] _ _ _ Hinv0 ltac:(constructor) Hnew0)
    as (Hinv1 & _ & Hl0).
  destruct (CFGNode_init_inv _ _ _ _ _ _ Hinv1 Hl0 Hinit)
    as (Hinv2 & _ & Hfounder).
  destruct (new_list_inv base [founder] _ _ _ Hinv2
              ltac:(constructor; [exact Hfounder|constructor]) Hnew1)
    as (Hinv3 & _ & Hl1).
  destruct (walk_keeps_all base tree _ _ _ _ Hinv3 Hl1 Hwalk)
    as (Hinv4 & _ & Hfrontier).
  destruct (CFGNode_init_inv _ _ _ _ _ _ Hinv4 Hfrontier Hstop)
    as (Hinv5 & _ & _).
  exact (PyCFG_update_children_inv _ _ _ Hinv5 Hpass).
Qed.

(** X1: when [gen_cfg] returns, the node stored at index [i] of the registry
    has [rid] [i], so that [rid]s are distinct and follow creation order, and
    every reference in its parent list points at a registered node. *)
Theorem registry_ids_and_parents_sound (tree : ast) (st st' : state)
    (i : nat) (n : CFGNode) :
  gen_cfg tree st = (Done tt, st') →
  node_of st' i = Some n →
  rid n = i ∧ ∀ p, p ∈ deref st' (parents n) → is_Some (node_of st' p).
Proof.
  intros Hrun Hn. destruct (gen_cfg_inv _ _ _ Hrun) as (_ & Hlists & Hnodes).
  destruct (Hnodes i n Hn) as (Hrid & _ & Hbase).
  split; [exact Hrid|]. intros p Hp.
  specialize (Hlists _ Hbase). rewrite Forall_forall in Hlists.
  apply lookup_lt_is_Some, Hlists, Hp.
Qed.

Lemma registry_ids_and_parents_sound_witness :
  ∃ n, node_of (cfg_of scenario_D) 2 = Some n ∧ rid n = 2%nat ∧
       ∀ p, p ∈ deref (cfg_of scenario_D) (parents n) →
            is_Some (node_of (cfg_of scenario_D) p).
Proof.
  eexists. split; [vm_compute; reflexivity|].
  eapply (registry_ids_and_parents_sound scenario_D init_state).
  - vm_compute. reflexivity.
  - vm_compute. reflexivity.
Defined.

(** X2: walking an expression creates no node: for names, constants, binary
    and unary operations, comparisons and handler-less nodes, [walk] returns
    the frontier it was given and leaves registry and lists as they were. *)
Theorem walk_expression_passes_through (e : ast) (p : loc) (st : state) :
  pure_expr e = true → walk e p st = (Done p, st).
Proof.
  revert p st.
  induction e as
    [body Hbody
    |l targets value Htargets IHvalue
    |l target annotation IHtarget IHannotation
    |l value IHvalue
    |l test body orelse IHtest Hbody Horelse
    |l test body orelse IHtest Hbody Horelse
    |l id
    |l value
    |l lhs rhs IHlhs IHrhs
    |l lhs comparators IHlhs Hcomparators
    |l operand IHoperand
    |l cls] using ast_nested_ind;
    intros p st Hpure; try discriminate Hpure.
  - rewrite walk_leaf by exact I. reflexivity.
  - rewrite walk_leaf by exact I. reflexivity.
  - cbn [pure_expr] in Hpure. apply andb_prop in Hpure as [Hl Hr].
    rewrite walk_BinOp. unfold on_binop.
    rewrite (bind_run _ _ _ _ _ (IHlhs p st Hl)). apply IHrhs, Hr.
  - cbn [pure_expr] in Hpure.
    destruct Hcomparators as [|c comparators Hc _]; [discriminate Hpure|].
    apply andb_prop in Hpure as [Hl Hc'].
    rewrite walk_Compare. unfold on_compare.
    rewrite (bind_run _ _ _ _ _ (IHlhs p st Hl)). apply Hc, Hc'.
  - rewrite walk_UnaryOp. unfold on_unaryop. apply IHoperand, Hpure.
  - rewrite walk_leaf by exact I. reflexivity.
Qed.

Lemma walk_expression_passes_through_witness :
  walk (Compare 2 (BinOp 2 (Name 2 "i") (Constant 2 1)) [UnaryOp 2 (Name 2 "n")])
       1%nat (cfg_of scenario_A)
  = (Done 1%nat, cfg_of scenario_A).
Proof. apply walk_expression_passes_through. vm_compute. reflexivity. Defined.

(** X3: an assignment with more than one target ([a = b = 1]) makes [walk]
    raise [TypeError] ([NotImplemented] is not callable) before any node is
    created: registry and lists are as they were. *)
Theorem walk_parallel_assignment_raises (l : Z) (targets : list ast)
    (value : ast) (p : loc) (st : state) :
  (1 < length targets)%nat →
  walk (Assign l targets value) p st = (Raise TypeError, st).
Proof.
  intros Hlen. rewrite walk_Assign. unfold on_assign.
  destruct (decide _) as [_|Hno]; [reflexivity|]. contradiction.
Qed.

Lemma walk_parallel_assignment_raises_witness :
  walk (Assign 1 [Name 1 "a"; Name 1 "b"] (Constant 1 1)) 1%nat init_state
  = (Raise TypeError, init_state).
Proof. apply walk_parallel_assignment_raises. cbn. lia. Defined.

Lemma walk_unhandled (node : ast) (p : loc) :
  hasattr_PyCFG (fname node) = false → walk node p = ret p.
Proof.
  intros Hno. destruct node; cbn [walk]; rewrite Hno; reflexivity.
Qed.

Lemma walk_body_handled (body : list ast) (p : loc) (st : state) :
  walk_body walk body p st = walk_body walk (handled_statements body) p st.
Proof.
  revert p st. induction body as [|n body IH]; intros p st; [reflexivity|].
  unfold handled_statements. cbn [List.filter walk_body].
  destruct (hasattr_PyCFG (fname n)) eqn:Hn.
  - cbn [walk_body]. unfold bind.
    destruct (walk n p st) as [[p'|e|] st1]; try reflexivity. apply IH.
  - rewrite (walk_unhandled n p Hn). unfold bind, ret. apply IH.
Qed.

Lemma bind_ext {A B} (m : M A) (k k' : A → M B) (st : state) :
  (∀ a st1, k a st1 = k' a st1) → bind m k st = bind m k' st.
Proof.
  intros Hk. unfold bind. destruct (m st) as [[a|e|] st1]; try reflexivity.
  apply Hk.
Qed.

(** X4: top-level statements of a class without a handler ([for], [def],
    [pass], augmented assignments, ...) leave no trace: [gen_cfg] on a module
    is [gen_cfg] on the module without them, result and final state alike. *)
Theorem gen_cfg_ignores_unhandled_statements (body : list ast) (st : state) :
  gen_cfg (Module_ body) st = gen_cfg (Module_ (handled_statements body)) st.
Proof.
  unfold gen_cfg. apply bind_ext. intros _ st0.
  apply bind_ext. intros founder st1.
  assert (Hgen : PyCFG_gen_cfg founder (Module_ body) st1
                 = PyCFG_gen_cfg founder (Module_ (handled_statements body)) st1).
  { unfold PyCFG_gen_cfg. apply bind_ext. intros l st2.
    unfold bind at 1 3. rewrite !walk_Module. unfold on_module.
    rewrite walk_body_handled. reflexivity. }
  unfold bind. rewrite Hgen. reflexivity.
Qed.

(** * Further properties of the slicer *)

Lemma StronglySorted_le_NoDup_lt (l : list Z) :
  StronglySorted Z.le l → NoDup l → StronglySorted Z.lt l.
Proof.
  induction 1 as [|x l Hsorted IH Hx]; intros Hdup; [constructor|].
  apply NoDup_cons in Hdup as [Hnotin Hdup].
  constructor; [apply IH, Hdup|].
  rewrite Forall_forall in *. intros y Hy. specialize (Hx y Hy).
  assert (x ≠ y) by (intros ->; contradiction). lia.
Qed.

(** X5: the list that a returning [slice] call prints is strictly
    ascending: sorted, and without a line number twice. *)
Theorem slice_output_strictly_ascending (fuel : nat) (linenum : Z)
    (varname : string) (st : state) (r : list Z) (st' : state) :
  slice fuel linenum varname st = (Done r, st') → StronglySorted Z.lt r.
Proof.
  intros Hrun. unfold slice in Hrun.
  apply bind_Done in Hrun as (s & st1 & Hget & Hrun).
  destruct (find_start _ _); [|discriminate Hrun].
  apply bind_Done in Hrun as (lines & st2 & _ & Hrun).
  injection Hrun as <- <-. unfold print_lines_in_slice.
  apply StronglySorted_le_NoDup_lt.
  - apply StronglySorted_merge_sort; apply _.
  - rewrite merge_sort_Permutation. apply NoDup_elements.
Qed.

Lemma slice_output_strictly_ascending_witness :
  StronglySorted Z.lt [1; 2; 3; 4].
Proof.
  apply (slice_output_strictly_ascending 7 0 "d" (cfg_of scenario_A) _
           (snd (slice 7 0 "d" (cfg_of scenario_A)))).
  vm_compute. reflexivity.
Defined.

(** X6: the loop of [build_slice] in general.  When no node of the CFG can
    raise or recurse ([all_safe]) and the seed of the query lies in a set of
    nodes closed under "last parent", as the nodes of a [while] loop are, the
    query never returns: it is out of fuel for every amount of fuel. *)
Theorem slice_never_returns_from_closed_set (st : state) (nodes : list nat)
    (fuel : nat) (linenum : Z) (varname : string) (seed : nat) :
  all_safe st = true → closed_under_last_parent st nodes = true →
  find_start linenum (REGISTRY st) = Some seed → seed ∈ nodes →
  fst (slice fuel linenum varname st) = OutOfFuel.
Proof.
  intros Hsafe Hclosed Hstart Hseed.
  unfold slice, bind at 1, get. rewrite Hstart. unfold bind.
  pose proof (build_slice_diverges st nodes fuel seed (set_of_str varname)
                Hsafe Hclosed Hseed) as Hdiv.
  destruct (build_slice fuel seed (set_of_str varname) st) as [[lines|e|] st'];
    try discriminate Hdiv.
  reflexivity.
Qed.

Lemma slice_never_returns_from_closed_set_witness :
  fst (slice 1000 2 "i" (cfg_of scenario_D)) = OutOfFuel.
Proof.
  apply (slice_never_returns_from_closed_set _ [2; 3]%nat _ _ _ 3%nat).
  - vm_compute. reflexivity.
  - vm_compute. reflexivity.
  - vm_compute. reflexivity.
  - apply list_elem_of_In. cbn. auto.
Defined.

Lemma bind_Raise {A B} (m : M A) (k : A → M B) (st : state) (e : exn) :
  fst (m st) = Raise e → fst (bind m k st) = Raise e.
Proof.
  unfold bind. destruct (m st) as [[a|e'|] st1]; cbn; intros Hm;
    try discriminate Hm. injection Hm as ->. reflexivity.
Qed.

(** The first thing a query does after seeding: it visits the first parent
    of the seed, with the seed's relevant set being [vars]. *)
Lemma build_slice_first_visit (fuel seed : nat) (vars : gset string)
    (st : state) (cur : CFGNode) (par : nat) (rest : list nat) (e : exn) :
  node_of st seed = Some cur →
  deref st (parents cur) = par :: rest →
  (∀ rec st1 cur1,
     same_topology st st1 → node_of st1 seed = Some cur1 →
     relevant_set cur1 = vars → topology_of cur1 = topology_of cur →
     fst (visit_parent rec seed par ([], ∅) st1) = Raise e) →
  fst (build_slice (2 + fuel) seed vars st) = Raise e.
Proof.
  intros Hcur Hps Hvisit. cbn [Nat.add build_slice].
  pose proof (update_relevant_set_topology seed vars st) as Htop.
  unfold bind at 1.
  destruct (update_relevant_set seed vars st) as [[[]|e'|] st1] eqn:Hupd;
    try discriminate Hupd.
  cbn [snd] in Htop.
  assert (Hcur1 : node_of st1 seed = Some (set_relevant_set vars cur)).
  { unfold update_relevant_set, alter_node, modify in Hupd.
    injection Hupd as <-. unfold node_of in *. cbn.
    rewrite list_lookup_alter_eq, Hcur. reflexivity. }
  cbn [while_stack].
  rewrite (bind_run _ _ _ _ _ (get_node_run _ _ _ Hcur1)).
  assert (Hread : read_list (parents (set_relevant_set vars cur)) st1
                  = (Done (par :: rest), st1)).
  { unfold read_list, deref. destruct Htop as [Hlists _]. rewrite Hlists.
    unfold deref in Hps. cbn. rewrite Hps. reflexivity. }
  rewrite (bind_run _ _ _ _ _ Hread).
  apply bind_Raise. cbn [for_parents]. apply bind_Raise.
  apply (Hvisit _ st1 (set_relevant_set vars cur)); auto.
Qed.

Lemma add_target_ids_spec (targets : list ast) (def_m : gset string)
    (st : state) :
  forallb is_Name targets = true →
  ∃ d, add_target_ids targets def_m st = (Done d, st) ∧
       ∀ x, x ∈ d ↔ x ∈ def_m ∨ ∃ l, Name l x ∈ targets.
Proof.
  revert def_m. induction targets as [|t targets IH]; intros def_m Hnames.
  - exists def_m. split; [reflexivity|]. intros x. split; [auto|].
    intros [Hx|[l Hl]]; [exact Hx|]. apply elem_of_nil in Hl. destruct Hl.
  - cbn [forallb] in Hnames. apply andb_prop in Hnames as [Ht Hnames].
    destruct t; try discriminate Ht. cbn [add_target_ids].
    destruct (IH (def_m ∪ {[id]}) Hnames) as (d & Hd & Hspec).
    exists d. split; [exact Hd|]. intros x. rewrite Hspec.
    rewrite elem_of_union, elem_of_singleton. split.
    + intros [[Hx| ->]|[l Hl]]; [auto| |].
      * right. exists lineno0. apply elem_of_cons. auto.
      * right. exists l. apply elem_of_cons. auto.
    + intros [Hx|[l Hl]]; [auto|].
      apply elem_of_cons in Hl as [Heq|Hl]; [|eauto].
      injection Heq as _ ->. auto.
Qed.

(** X7: data dependence through an assignment whose right-hand side is of a
    kind the collector does not list (a call, a comparison, a unary
    operation, ...).  When the first parent of the seed is such an assignment
    to names and one of them is a seed variable, the query raises
    [TypeError] (from [set(None)]) instead of returning a slice. *)
Theorem build_slice_raises_on_unlisted_value (fuel seed : nat)
    (vars : gset string) (st : state) (cur pn : CFGNode) (par : nat)
    (rest : list nat) (l l' : Z) (targets : list ast) (value : ast)
    (x : string) :
  node_of st seed = Some cur →
  deref st (parents cur) = par :: rest →
  node_of st par = Some pn →
  ast_node pn = Assign l targets value →
  forallb is_Name targets = true →
  Name l' x ∈ targets → x ∈ vars →
  collect_references value = Done None →
  fst (build_slice (2 + fuel) seed vars st) = Raise TypeError.
Proof.
  intros Hcur Hps Hpn Hast Hnames Hx Hvars Hnone.
  eapply build_slice_first_visit; [exact Hcur|exact Hps|].
  intros rec st1 cur1 Htop Hcur1 Hrel _.
  destruct (same_topology_node _ _ _ _ Htop Hpn) as (pn1 & Hpn1 & Hpn_eq).
  assert (Hast1 : ast_node pn1 = Assign l targets value).
  { unfold topology_of in Hpn_eq. congruence. }
  unfold visit_parent.
  rewrite (bind_run _ _ _ _ _ (get_node_run _ _ _ Hcur1)).
  rewrite (bind_run _ _ _ _ _ (get_node_run _ _ _ Hpn1)).
  rewrite Hast1.
  destruct (add_target_ids_spec targets ∅ st1 Hnames) as (d & Hd & Hspec).
  rewrite (bind_run _ _ _ _ _ Hd).
  apply bind_Raise. destruct (decide _) as [_|Hempty].
  - apply bind_Raise. unfold set_of_references, bind, lift. cbn.
    rewrite Hnone. reflexivity.
  - exfalso. apply Hempty. intros Heq.
    assert (Hin : x ∈ relevant_set cur1 ∩ d).
    { apply elem_of_intersection. split; [rewrite Hrel; exact Hvars|].
      apply Hspec. right. eauto. }
    rewrite Heq in Hin. apply not_elem_of_empty in Hin. exact Hin.
Qed.

(** [z = x] sliced for [x], whose definition is [x = -y]. *)
Lemma build_slice_raises_on_unlisted_value_witness :
  fst (build_slice 2 3 {["x"]} (cfg_of unary_value)) = Raise TypeError.
Proof.
  eapply (build_slice_raises_on_unlisted_value 0 3 _ (cfg_of unary_value)).
  - vm_compute. reflexivity.
  - vm_compute. reflexivity.
  - vm_compute. reflexivity.
  - vm_compute. reflexivity.
  - reflexivity.
  - apply list_elem_of_here.
  - apply elem_of_singleton. reflexivity.
  - reflexivity.
Defined.

(** X8: control dependence on a condition of a kind the collector does not
    list.  When the first parent of the seed is a test node whose line is in
    the seed's control set and the collector returns [None] for its
    condition (as for every comparison), the query raises [TypeError]. *)
Theorem build_slice_raises_on_unlisted_condition (fuel seed : nat)
    (vars : gset string) (st : state) (cur pn : CFGNode) (par : nat)
    (rest : list nat) (l : Z) (target annotation : ast) :
  node_of st seed = Some cur →
  deref st (parents cur) = par :: rest →
  node_of st par = Some pn →
  ast_node pn = AnnAssign l target annotation →
  lineno pn ∈ control_set cur →
  collect_references annotation = Done None →
  fst (build_slice (2 + fuel) seed vars st) = Raise TypeError.
Proof.
  intros Hcur Hps Hpn Hast Hctl Hnone.
  eapply build_slice_first_visit; [exact Hcur|exact Hps|].
  intros rec st1 cur1 Htop Hcur1 _ Hcur_eq.
  destruct (same_topology_node _ _ _ _ Htop Hpn) as (pn1 & Hpn1 & Hpn_eq).
  assert (Hast1 : ast_node pn1 = AnnAssign l target annotation).
  { unfold topology_of in Hpn_eq. congruence. }
  assert (Hctl1 : lineno pn1 ∈ control_set cur1).
  { unfold lineno. rewrite Hast1. unfold lineno in Hctl. rewrite Hast in Hctl.
    unfold topology_of in Hcur_eq.
    replace (control_set cur1) with (control_set cur) by congruence.
    exact Hctl. }
  unfold visit_parent.
  rewrite (bind_run _ _ _ _ _ (get_node_run _ _ _ Hcur1)).
  rewrite (bind_run _ _ _ _ _ (get_node_run _ _ _ Hpn1)).
  rewrite Hast1. rewrite (bind_run (ret ∅) _ st1 ∅ st1 eq_refl).
  destruct (decide (relevant_set cur1 ∩ ∅ ≠ ∅)) as [Hne|_].
  { rewrite intersection_empty_r_L in Hne. congruence. }
  rewrite (bind_run (ret _) _ st1 _ st1 eq_refl). cbn [fst snd].
  apply bind_Raise. rewrite <- Hast1.
  destruct (decide _) as [_|Hno]; [|contradiction].
  apply bind_Raise. unfold set_of_references, bind, lift.
  rewrite Hast1. cbn. rewrite Hnone. reflexivity.
Qed.

(** [y = 2] in the then-branch of [if x > 0]. *)
Lemma build_slice_raises_on_unlisted_condition_witness :
  fst (build_slice 2 3 {["y"]} (cfg_of scenario_C)) = Raise TypeError.
Proof.
  eapply (build_slice_raises_on_unlisted_condition 0 3 _ (cfg_of scenario_C)).
  - vm_compute. reflexivity.
  - vm_compute. reflexivity.
  - vm_compute. reflexivity.
  - vm_compute. reflexivity.
  - vm_compute. reflexivity.
  - reflexivity.
Defined.

(** ** The slicer on a CFG without cycles *)

Lemma bind_ended {A B} (m : M A) (k : A → M B) (st : state) :
  ended (m st) → (∀ a st1, m st = (Done a, st1) → ended (k a st1)) →
  ended (bind m k st).
Proof.
  unfold ended, bind. intros Hm Hk.
  destruct (m st) as [[a|e|] st1]; cbn in *; [apply Hk; reflexivity|..];
    congruence.
Qed.

Lemma stateless_ended {A} (m : M A) (st : state) :
  (∀ st1, fst (m st1) ≠ OutOfFuel) → ended (m st).
Proof. intros Hm. apply Hm. Qed.

Lemma get_node_ended (r : nat) (st : state) : ended (get_node r st).
Proof.
  unfold ended, get_node, bind, get. destruct (node_of st r); discriminate.
Qed.

Lemma set_of_references_ended (a : ast) (st : state) :
  collect_references a ≠ OutOfFuel → ended (set_of_references a st).
Proof.
  unfold ended, set_of_references, bind, lift. cbn.
  destruct (collect_references a) as [[l|]|e|]; cbn; congruence.
Qed.

Lemma collect_references_ended (a : ast) : collect_references a ≠ OutOfFuel.
Proof.
  induction a as
    [body Hbody
    |l targets value Htargets IHvalue
    |l target annotation IHtarget IHannotation
    |l value IHvalue
    |l test body orelse IHtest Hbody Horelse
    |l test body orelse IHtest Hbody Horelse
    |l id
    |l value
    |l lhs rhs IHlhs IHrhs
    |l lhs comparators IHlhs Hcomparators
    |l operand IHoperand
    |l cls] using ast_nested_ind; cbn [collect_references]; try discriminate;
    try assumption.
  destruct (collect_references lhs) as [[x|]|e|];
    destruct (collect_references rhs) as [[y|]|e'|]; congruence.
Qed.

Lemma add_target_ids_ended (targets : list ast) (def_m : gset string)
    (st : state) :
  ended (add_target_ids targets def_m st).
Proof.
  revert def_m. induction targets as [|t targets IH]; intros def_m.
  - discriminate.
  - destruct t; try discriminate. cbn [add_target_ids]. apply IH.
Qed.

Lemma ret_ended {A} (a : A) (st : state) : ended (ret a st).
Proof. discriminate. Qed.

Lemma visit_parent_ended (rec : nat → gset string → M (gset Z))
    (current_loc parent : nat) (acc : list nat * gset Z) (st : state) :
  (∀ ref, ended (rec parent ref st)) →
  ended (visit_parent rec current_loc parent acc st).
Proof.
  intros Hrec. unfold visit_parent. destruct acc as [stack lines_in_slice].
  apply bind_ended; [apply get_node_ended|]. intros cur st1 Hcur.
  assert (st1 = st) as -> by (rewrite <- (get_node_stateless current_loc st);
                               rewrite Hcur; reflexivity).
  apply bind_ended; [apply get_node_ended|]. intros par st1 Hpar.
  assert (st1 = st) as -> by (rewrite <- (get_node_stateless parent st);
                               rewrite Hpar; reflexivity).
  apply bind_ended.
  { destruct (ast_node par); try apply ret_ended.
    apply add_target_ids_ended. }
  intros def_m st1 Hdef.
  assert (st1 = st) as ->.
  { apply (f_equal snd) in Hdef. cbn [snd] in Hdef. rewrite <- Hdef.
    destruct (ast_node par); try reflexivity.
    apply add_target_ids_stateless. }
  apply bind_ended.
  { destruct (decide (relevant_set cur ∩ def_m ≠ ∅)); [|apply ret_ended].
    apply bind_ended;
      [apply set_of_references_ended, collect_references_ended|].
    intros; apply ret_ended. }
  intros data st1 Hdata.
  assert (st1 = st) as ->.
  { destruct (decide (relevant_set cur ∩ def_m ≠ ∅)).
    - apply bind_Done in Hdata as (ref_m & st2 & Href & Hdata).
      apply (f_equal snd) in Hdata, Href. cbn in Hdata.
      rewrite set_of_references_stateless in Href. cbn in Href. congruence.
    - apply (f_equal snd) in Hdata. cbn in Hdata. congruence. }
  apply bind_ended.
  { destruct (decide (lineno par ∈ control_set cur)); [|apply ret_ended].
    apply bind_ended;
      [apply set_of_references_ended, collect_references_ended|].
    intros ref_c st1 Href.
    assert (st1 = st) as ->.
    { rewrite <- (set_of_references_stateless (ast_node par) st), Href.
      reflexivity. }
    apply bind_ended; [apply Hrec|]. intros; apply ret_ended. }
  intros lines st1 _. apply bind_ended; [unfold ended; discriminate|].
  intros; apply ret_ended.
Qed.

Lemma visit_parent_pushes (rec : nat → gset string → M (gset Z))
    (current_loc parent : nat) (stack : list nat) (lines : gset Z)
    (st : state) (acc' : list nat * gset Z) (st' : state) :
  visit_parent rec current_loc parent (stack, lines) st = (Done acc', st') →
  fst acc' = parent :: stack.
Proof.
  intros Hrun. unfold visit_parent in Hrun.
  apply bind_Done in Hrun as (cur & st1 & _ & Hrun).
  apply bind_Done in Hrun as (par & st2 & _ & Hrun).
  apply bind_Done in Hrun as (def_m & st3 & _ & Hrun).
  apply bind_Done in Hrun as (data & st4 & _ & Hrun).
  apply bind_Done in Hrun as (lines' & st5 & _ & Hrun).
  apply bind_Done in Hrun as ([] & st6 & _ & Hrun).
  injection Hrun as <- <-. reflexivity.
Qed.

Lemma for_parents_pushes (rec : nat → gset string → M (gset Z))
    (current_loc : nat) (ps stack : list nat) (lines : gset Z)
    (st : state) (acc' : list nat * gset Z) (st' : state) :
  for_parents rec current_loc ps (stack, lines) st = (Done acc', st') →
  fst acc' = reverse ps ++ stack.
Proof.
  revert stack lines st. induction ps as [|p ps IH]; intros stack lines st Hrun.
  - injection Hrun as <- <-. reflexivity.
  - cbn [for_parents] in Hrun.
    apply bind_Done in Hrun as ([stack1 lines1] & st1 & Hvisit & Hrun).
    apply visit_parent_pushes in Hvisit. cbn in Hvisit. subst stack1.
    rewrite (IH _ _ _ Hrun), reverse_cons, <- app_assoc. reflexivity.
Qed.

Lemma same_topology_sym (st st' : state) :
  same_topology st st' → same_topology st' st.
Proof. intros [Hl Hr]. split; congruence. Qed.

Lemma get_node_Done (r : nat) (st : state) (n : CFGNode) (st' : state) :
  get_node r st = (Done n, st') → node_of st r = Some n ∧ st' = st.
Proof.
  unfold get_node, bind, get. destruct (node_of st r) as [m|]; intros Hrun;
    [|discriminate Hrun].
  injection Hrun as <- <-. auto.
Qed.

Lemma ranked_node (st : state) (w : nat → nat) (i : nat) (n : CFGNode) :
  ranked st w = true → node_of st i = Some n →
  (sum_list_with (fun p => S (w p)) (deref st (parents n)) ≤ w i)%nat.
Proof.
  intros Hranked Hn. unfold ranked in Hranked.
  rewrite forallb_forall in Hranked.
  assert (Hi : In i (seq 0 (length (REGISTRY st)))).
  { apply in_seq. apply lookup_lt_Some in Hn. lia. }
  specialize (Hranked i Hi). rewrite Hn in Hranked.
  apply Nat.leb_le, Hranked.
Qed.

Section ranked_termination.
Variable st0 : state.
Variable w : nat → nat.
Hypothesis Hranked : ranked st0 w = true.

(** The fuel of the recursive calls, and what is known about them. *)
Variable fuel' : nat.
Hypothesis Hrec : ∀ p ref st,
  same_topology st0 st → (S (w p) < fuel')%nat →
  ended (build_slice fuel' p ref st).

Lemma for_parents_ended (st : state) (current_loc : nat) (ps : list nat)
    (acc : list nat * gset Z) :
  same_topology st0 st →
  (∀ p, p ∈ ps → (S (w p) < fuel')%nat) →
  ended (for_parents (build_slice fuel') current_loc ps acc st).
Proof.
  revert st acc. induction ps as [|p ps IH]; intros st acc Htop Hps.
  - apply ret_ended.
  - cbn [for_parents]. apply bind_ended.
    + apply visit_parent_ended. intros ref. apply Hrec; [exact Htop|].
      apply Hps, list_elem_of_here.
    + intros acc' st1 Hvisit. apply IH.
      * eapply same_topology_trans; [exact Htop|].
        pose proof (visit_parent_topology (build_slice fuel')
                      (build_slice_topology fuel') current_loc p acc st)
          as Hframe.
        rewrite Hvisit in Hframe. exact Hframe.
      * intros q Hq. apply Hps, list_elem_of_further, Hq.
Qed.

Lemma while_stack_ended (k : nat) (stack : list nat) (lines : gset Z)
    (st : state) :
  same_topology st0 st →
  (sum_list_with (fun c => S (w c)) stack ≤ k)%nat → (k ≤ fuel')%nat →
  ended (while_stack (build_slice fuel') k stack lines st).
Proof.
  revert stack lines st.
  induction k as [|k IH]; intros [|c stack] lines st Htop Hsum Hk;
    try apply ret_ended.
  - cbn in Hsum. lia.
  - cbn [while_stack]. apply bind_ended; [apply get_node_ended|].
    intros cur st1 Hcur. apply get_node_Done in Hcur as [Hcur ->].
    destruct (same_topology_node _ _ _ _ (same_topology_sym _ _ Htop) Hcur)
      as (cur0 & Hcur0 & Hcur_eq).
    assert (Hps : deref st (parents cur) = deref st0 (parents cur0)).
    { unfold deref. destruct Htop as [Hlists _]. rewrite Hlists.
      unfold topology_of in Hcur_eq. replace (parents cur) with (parents cur0)
        by congruence. reflexivity. }
    pose proof (ranked_node _ _ _ _ Hranked Hcur0) as Hweight.
    rewrite <- Hps in Hweight. cbn in Hsum.
    apply bind_ended; [unfold ended; discriminate|].
    intros ps st1 Hread. injection Hread as <- <-.
    apply bind_ended.
    + apply for_parents_ended; [exact Htop|]. intros p Hp.
      pose proof (sum_list_with_in p (fun c => S (w c)) _ Hp) as Hle.
      cbn in Hle. lia.
    + intros acc st1 Hfor.
      pose proof (for_parents_topology (build_slice fuel')
                    (build_slice_topology fuel') c
                    (deref st (parents cur)) (stack, lines) st) as Hframe.
      rewrite Hfor in Hframe. cbn [snd] in Hframe.
      apply for_parents_pushes in Hfor. rewrite Hfor.
      apply IH; [eapply same_topology_trans; eassumption| |lia].
      rewrite sum_list_with_app, sum_list_with_reverse. lia.
Qed.
End ranked_termination.

Lemma ranked_cfg_ends (st : state) (w : nat → nat) (fuel seed : nat)
    (vars : gset string) :
  ranked st w = true → (S (w seed) < fuel)%nat →
  ended (build_slice fuel seed vars st).
Proof.
  intros Hranked.
  enough (Hall : ∀ st1, same_topology st st1 → (S (w seed) < fuel)%nat →
                        ended (build_slice fuel seed vars st1))
    by (apply Hall, same_topology_refl).
  revert seed vars.
  induction fuel as [|fuel IH]; intros seed vars st1 Htop Hfuel; [lia|].
  cbn [build_slice]. apply bind_ended; [unfold ended; discriminate|].
  intros [] st2 Hupd.
  pose proof (update_relevant_set_topology seed vars st1) as Hframe.
  rewrite Hupd in Hframe. cbn [snd] in Hframe.
  apply (while_stack_ended st w Hranked fuel).
  - intros p ref st3 Htop3 Hp. apply IH; assumption.
  - eapply same_topology_trans; eassumption.
  - cbn. lia.
  - lia.
Qed.

(** X9: on a CFG whose parent edges form no cycle the slicer always leaves
    its loop.  If [w] ranks the nodes (each node weighs at least as much as
    its parents together, each counted with one more than its weight), a
    call of [build_slice] with more than [w seed + 1] units of fuel returns
    or raises; it never runs out of fuel. *)
Theorem build_slice_ends_on_ranked_cfg (st : state) (w : nat → nat)
    (fuel seed : nat) (vars : gset string) :
  ranked st w = true → (S (w seed) < fuel)%nat →
  ended (build_slice fuel seed vars st).
Proof. apply ranked_cfg_ends. Qed.

(** Scenario A is a chain: node [i] weighs [i]. *)
Lemma build_slice_ends_on_ranked_cfg_witness :
  ended (build_slice 7 5 {["d"]} (cfg_of scenario_A)).
Proof.
  apply (build_slice_ends_on_ranked_cfg _ (fun i => i)).
  - vm_compute. reflexivity.
  - lia.
Defined.

(** ** Where the lines of a slice come from *)

Lemma visit_parent_lines (rec : nat → gset string → M (gset Z))
    (P : Z → Prop) (current_loc parent : nat) (stack : list nat)
    (lines : gset Z) (st : state) (acc' : list nat * gset Z) (st' : state) :
  (∀ l, l ∈ lines → P l) →
  (∀ pn, node_of st parent = Some pn → P (lineno pn)) →
  (∀ ref sub st2, rec parent ref st = (Done sub, st2) → ∀ l, l ∈ sub → P l) →
  visit_parent rec current_loc parent (stack, lines) st = (Done acc', st') →
  ∀ l, l ∈ snd acc' → P l.
Proof.
  intros Hlines Hpar Hrec Hrun. unfold visit_parent in Hrun.
  apply bind_Done in Hrun as (cur & st1 & Hcur & Hrun).
  apply get_node_Done in Hcur as [Hcur ->].
  apply bind_Done in Hrun as (par & st1 & Hpn & Hrun).
  apply get_node_Done in Hpn as [Hpn ->].
  apply bind_Done in Hrun as (def_m & st1 & Hdef & Hrun).
  assert (st1 = st) as ->.
  { apply (f_equal snd) in Hdef. cbn [snd] in Hdef. rewrite <- Hdef.
    destruct (ast_node par); try reflexivity.
    apply add_target_ids_stateless. }
  apply bind_Done in Hrun as (data & st1 & Hdata & Hrun).
  assert (Hdata' : st1 = st ∧ ∀ l, l ∈ snd data → P l).
  { destruct (decide (relevant_set cur ∩ def_m ≠ ∅)).
    - apply bind_Done in Hdata as (ref_m & st2 & Href & Hdata).
      apply (f_equal snd) in Href.
      rewrite set_of_references_stateless in Href. cbn in Href. subst st2.
      injection Hdata as <- <-. split; [reflexivity|]. cbn. intros l Hl.
      apply elem_of_union in Hl as [Hl|Hl]; [apply Hlines, Hl|].
      apply elem_of_singleton in Hl as ->. apply Hpar, Hpn.
    - injection Hdata as <- <-. split; [reflexivity|]. exact Hlines. }
  destruct Hdata' as [-> Hdata'].
  apply bind_Done in Hrun as (lines' & st1 & Hctl & Hrun).
  assert (Hlines' : ∀ l, l ∈ lines' → P l).
  { destruct (decide (lineno par ∈ control_set cur)).
    - apply bind_Done in Hctl as (ref_c & st2 & Href & Hctl).
      apply (f_equal snd) in Href.
      rewrite set_of_references_stateless in Href. cbn in Href. subst st2.
      apply bind_Done in Hctl as (sub & st3 & Hsub & Hctl).
      injection Hctl as <- <-. intros l Hl.
      apply elem_of_union in Hl as [Hl|Hl]; [|eapply Hrec; eassumption].
      apply elem_of_union in Hl as [Hl|Hl]; [apply Hdata', Hl|].
      apply elem_of_singleton in Hl as ->. apply Hpar, Hpn.
    - injection Hctl as <- <-. exact Hdata'. }
  apply bind_Done in Hrun as ([] & st2 & _ & Hrun).
  injection Hrun as <- <-. exact Hlines'.
Qed.

Section ancestors.
Variable st0 : state.
Variable rec : nat → gset string → M (gset Z).
Hypothesis Hframe : ∀ n v, preserves same_topology (rec n v).
Hypothesis Hrec : ∀ p ref st sub st',
  same_topology st0 st → rec p ref st = (Done sub, st') →
  ∀ l, l ∈ sub → line_of_ancestor st0 p l.

Lemma line_of_ancestor_step (seed c p : nat) (l : Z) :
  rtc (parent_edge st0) seed c → parent_edge st0 c p →
  (line_of_ancestor st0 p l → line_of_ancestor st0 seed l) ∧
  (∀ st pn, same_topology st0 st → node_of st p = Some pn →
            line_of_ancestor st0 seed (lineno pn)).
Proof.
  intros Hc Hedge.
  assert (Hp : tc (parent_edge st0) seed p).
  { eapply tc_rtc_l; [exact Hc|]. apply tc_once, Hedge. }
  split.
  - intros (m & n & Hm & Hn & Hl). exists m, n. split; [|auto].
    eapply tc_trans; eassumption.
  - intros st pn Htop Hpn.
    destruct (same_topology_node _ _ _ _ (same_topology_sym _ _ Htop) Hpn)
      as (pn0 & Hpn0 & Heq).
    exists p, pn0. split; [exact Hp|]. split; [exact Hpn0|].
    unfold lineno, topology_of in *. congruence.
Qed.

Lemma for_parents_lines (seed current_loc : nat) (ps stack : list nat)
    (lines : gset Z) (st : state) (acc' : list nat * gset Z) (st' : state) :
  same_topology st0 st →
  rtc (parent_edge st0) seed current_loc →
  (∀ p, p ∈ ps → parent_edge st0 current_loc p) →
  (∀ l, l ∈ lines → line_of_ancestor st0 seed l) →
  for_parents rec current_loc ps (stack, lines) st = (Done acc', st') →
  ∀ l, l ∈ snd acc' → line_of_ancestor st0 seed l.
Proof.
  intros Htop Hcur. revert stack lines st Htop.
  induction ps as [|p ps IH]; intros stack lines st Htop Hps Hlines Hrun.
  - injection Hrun as <- <-. exact Hlines.
  - cbn [for_parents] in Hrun.
    apply bind_Done in Hrun as ([stack1 lines1] & st1 & Hvisit & Hrun).
    assert (Hedge : parent_edge st0 current_loc p)
      by apply Hps, list_elem_of_here.
    eapply (IH stack1 lines1 st1); [| | |exact Hrun].
    + eapply same_topology_trans; [exact Htop|].
      pose proof (visit_parent_topology rec Hframe current_loc p
                    (stack, lines) st) as Hstep.
      rewrite Hvisit in Hstep. exact Hstep.
    + intros q Hq. apply Hps, list_elem_of_further, Hq.
    + change lines1 with (snd (stack1, lines1)).
      eapply visit_parent_lines; [exact Hlines| | |exact Hvisit].
      * intros pn Hpn.
        eapply (proj2 (line_of_ancestor_step seed current_loc p 0 Hcur Hedge));
          eassumption.
      * intros ref sub st2 Hsub l Hl.
        apply (proj1 (line_of_ancestor_step seed current_loc p l Hcur Hedge)).
        eapply Hrec; eassumption.
Qed.

Lemma while_stack_lines (seed : nat) (k : nat) (stack : list nat)
    (lines : gset Z) (st : state) (lines' : gset Z) (st' : state) :
  same_topology st0 st →
  (∀ c, c ∈ stack → rtc (parent_edge st0) seed c) →
  (∀ l, l ∈ lines → line_of_ancestor st0 seed l) →
  while_stack rec k stack lines st = (Done lines', st') →
  ∀ l, l ∈ lines' → line_of_ancestor st0 seed l.
Proof.
  revert stack lines st.
  induction k as [|k IH]; intros [|c stack] lines st Htop Hstack Hlines Hrun;
    try (injection Hrun as <- <-; exact Hlines); try discriminate Hrun.
  cbn [while_stack] in Hrun.
  apply bind_Done in Hrun as (cur & st1 & Hcur & Hrun).
  apply get_node_Done in Hcur as [Hcur ->].
  apply bind_Done in Hrun as (ps & st1 & Hread & Hrun).
  injection Hread as <- <-.
  apply bind_Done in Hrun as ([stack1 lines1] & st1 & Hfor & Hrun).
  cbn [fst snd] in Hrun.
  destruct (same_topology_node _ _ _ _ (same_topology_sym _ _ Htop) Hcur)
    as (cur0 & Hcur0 & Hcur_eq).
  assert (Hps : deref st (parents cur) = deref st0 (parents cur0)).
  { unfold deref. destruct Htop as [Hlists _]. rewrite Hlists.
    unfold topology_of in Hcur_eq. replace (parents cur) with (parents cur0)
      by congruence. reflexivity. }
  assert (Hc : rtc (parent_edge st0) seed c)
    by apply Hstack, list_elem_of_here.
  assert (Hedges : ∀ p, p ∈ deref st (parents cur) → parent_edge st0 c p).
  { intros p Hp. exists cur0. split; [exact Hcur0|]. rewrite <- Hps. exact Hp. }
  pose proof (for_parents_topology rec Hframe c (deref st (parents cur))
                (stack, lines) st) as Hstep.
  rewrite Hfor in Hstep. cbn [snd] in Hstep.
  pose proof (for_parents_pushes _ _ _ _ _ _ _ _ Hfor) as Hpush.
  cbn in Hpush.
  eapply (IH stack1 lines1 st1); [| | |exact Hrun].
  - eapply same_topology_trans; eassumption.
  - intros d Hd. rewrite Hpush in Hd.
    apply elem_of_app in Hd as [Hd|Hd].
    + rewrite elem_of_reverse in Hd. eapply rtc_r; [exact Hc|].
      apply Hedges, Hd.
    + apply Hstack, list_elem_of_further, Hd.
  - change lines1 with (snd (stack1, lines1)).
    eapply for_parents_lines; [exact Htop|exact Hc|exact Hedges|exact Hlines|].
    exact Hfor.
Qed.
End ancestors.

Lemma build_slice_lines (st0 : state) (fuel seed : nat) (vars : gset string)
    (st : state) (lines : gset Z) (st' : state) :
  same_topology st0 st →
  build_slice fuel seed vars st = (Done lines, st') →
  ∀ l, l ∈ lines → line_of_ancestor st0 seed l.
Proof.
  revert seed vars st lines st'.
  induction fuel as [|fuel IH]; intros seed vars st lines st' Htop Hrun;
    [discriminate Hrun|].
  cbn [build_slice] in Hrun.
  apply bind_Done in Hrun as ([] & st1 & Hupd & Hrun).
  pose proof (update_relevant_set_topology seed vars st) as Hstep.
  rewrite Hupd in Hstep. cbn [snd] in Hstep.
  eapply (while_stack_lines st0 (build_slice fuel)
            (build_slice_topology fuel)); [| | | |exact Hrun].
  - intros p ref st2 sub st3 Htop2 Hsub. eapply IH; eassumption.
  - eapply same_topology_trans; eassumption.
  - intros c Hc. apply list_elem_of_singleton in Hc as ->. apply rtc_refl.
  - intros l Hl. apply not_elem_of_empty in Hl. destruct Hl.
Qed.

(** X10: every line that a returning query reports is the line of a proper
    ancestor of the seed node in the CFG: of a node reached from the seed
    over at least one parent edge.  The seed's own line is reported only if
    such an ancestor shares it. *)
Theorem slice_lines_are_ancestor_lines (fuel : nat) (linenum : Z)
    (varname : string) (st : state) (seed : nat) (r : list Z) (st' : state)
    (l : Z) :
  find_start linenum (REGISTRY st) = Some seed →
  slice fuel linenum varname st = (Done r, st') →
  l ∈ r → line_of_ancestor st seed l.
Proof.
  intros Hstart Hrun Hl. unfold slice in Hrun.
  apply bind_Done in Hrun as (s & st1 & Hget & Hrun).
  injection Hget as <- <-. rewrite Hstart in Hrun.
  apply bind_Done in Hrun as (lines & st2 & Hbuild & Hrun).
  injection Hrun as <- <-. unfold print_lines_in_slice in Hl.
  rewrite merge_sort_Permutation in Hl. apply elem_of_elements in Hl.
  eapply build_slice_lines; [apply same_topology_refl|exact Hbuild|exact Hl].
Qed.

Lemma slice_lines_are_ancestor_lines_witness :
  line_of_ancestor (cfg_of scenario_A) 5 3.
Proof.
  apply (slice_lines_are_ancestor_lines 7 0 "d" (cfg_of scenario_A) 5
           [1; 2; 3; 4] (snd (slice 7 0 "d" (cfg_of scenario_A)))).
  - vm_compute. reflexivity.
  - vm_compute. reflexivity.
  - apply list_elem_of_In. cbn. auto.
Defined.

(** ** The shape of the graph *)

Lemma for_each_inv_in {A} (Inv : state → Prop) (body : A → M unit)
    (xs : list A) (st st' : state) :
  (∀ x st1 st2, x ∈ xs → Inv st1 → body x st1 = (Done tt, st2) → Inv st2) →
  Inv st → for_each body xs st = (Done tt, st') → Inv st'.
Proof.
  revert st. induction xs as [|x xs IH]; intros st Hbody Hinv Hrun.
  - injection Hrun as <-. exact Hinv.
  - cbn [for_each] in Hrun.
    apply bind_Done in Hrun as ([] & st1 & Hx & Hrun).
    eapply IH; [|eapply Hbody; [apply list_elem_of_here|exact Hinv|exact Hx]
               |exact Hrun].
    intros y s1 s2 Hy. apply Hbody, list_elem_of_further, Hy.
Qed.

Lemma new_list_shape (root : loc) (l : list nat) (st : state) (p : loc)
    (st' : state) :
  shape_inv root st → l ≠ [] → new_list l st = (Done p, st') →
  shape_inv root st' ∧ frontier_ok root st' p ∧
  REGISTRY st' = REGISTRY st ∧
  (length (lists st) ≤ length (lists st'))%nat.
Proof.
  intros (Hroot & Hne & Hlen & Hnodes & Hchildren) Hl Hrun.
  unfold new_list in Hrun. injection Hrun as <- <-.
  pose proof (lookup_lt_Some _ _ _ Hroot) as Hroot_lt.
  split; [|split; [|split]].
  - split; [|split; [|split; [|split]]]; cbn.
    + rewrite lookup_app_l by exact Hroot_lt. exact Hroot.
    + intros q k Hq Hk. apply lookup_app_Some in Hk as [Hk|[_ Hk]].
      * eapply Hne; eassumption.
      * apply list_lookup_singleton_Some in Hk as [_ <-]. exact Hl.
    + exact Hlen.
    + intros i n Hn. destruct (Hnodes i n Hn) as (Hp & H0 & Hother).
      split; [rewrite length_app; lia|auto].
    + intros P nP C HP HC. destruct (Hchildren P nP C HP HC) as (nC & HnC & Hin).
      exists nC. split; [exact HnC|]. unfold deref in *. cbn.
      destruct (Hnodes C nC HnC) as (Hp & _).
      rewrite lookup_app_l by exact Hp. exact Hin.
  - unfold frontier_ok. cbn. rewrite length_app. cbn. lia.
  - reflexivity.
  - cbn. rewrite length_app. lia.
Qed.

Lemma alter_node_shape (root : loc) (f : CFGNode → CFGNode) (r : nat)
    (st st' : state) :
  (∀ n, parents (f n) = parents n ∧ ast_node (f n) = ast_node n ∧
        ∀ c, c ∈ children (f n) → c ∈ children n) →
  shape_inv root st → alter_node f r st = (Done tt, st') →
  shape_inv root st' ∧ lists st' = lists st ∧
  ∀ i n, REGISTRY st !! i = Some n →
         ∃ n', REGISTRY st' !! i = Some n' ∧ parents n' = parents n.
Proof.
  intros Hf (Hroot & Hne & Hlen & Hnodes & Hchildren) Hrun.
  unfold alter_node, modify in Hrun. injection Hrun as <-.
  assert (Hlookup : ∀ i n', alter f r (REGISTRY st) !! i = Some n' →
            ∃ n, REGISTRY st !! i = Some n ∧ parents n' = parents n ∧
                 ast_node n' = ast_node n ∧
                 ∀ c, c ∈ children n' → c ∈ children n).
  { intros i n' Hn'. destruct (decide (r = i)) as [->|Hneq].
    - rewrite list_lookup_alter_eq in Hn'.
      destruct (REGISTRY st !! i) as [n|]; [|discriminate Hn'].
      injection Hn' as <-. exists n. destruct (Hf n) as (? & ? & ?). auto.
    - rewrite list_lookup_alter_ne in Hn' by exact Hneq. exists n'. auto. }
  assert (Hkeep : ∀ i n, REGISTRY st !! i = Some n →
            ∃ n', alter f r (REGISTRY st) !! i = Some n' ∧
                  parents n' = parents n).
  { intros i n Hn. destruct (decide (r = i)) as [->|Hneq].
    - rewrite list_lookup_alter_eq, Hn. eexists. split; [reflexivity|].
      apply Hf.
    - rewrite list_lookup_alter_ne by exact Hneq. eauto. }
  split; [|split; [reflexivity|exact Hkeep]].
  split; [exact Hroot|]. split; [exact Hne|]. cbn.
  split; [rewrite length_alter; exact Hlen|]. split.
  - intros i n' Hn'. destruct (Hlookup i n' Hn') as (n & Hn & Hp & Ha & _).
    rewrite Hp, Ha. apply Hnodes, Hn.
  - intros P nP' C HP HC.
    destruct (Hlookup P nP' HP) as (nP & HnP & _ & _ & Hsub).
    destruct (Hchildren P nP C HnP (Hsub C HC)) as (nC & HnC & Hin).
    destruct (Hkeep C nC HnC) as (nC' & HnC' & Hpar).
    exists nC'. split; [exact HnC'|]. unfold deref in *. cbn. rewrite Hpar.
    exact Hin.
Qed.

Lemma add_child_shape (root : loc) (self c : nat) (st st' : state) :
  shape_inv root st →
  (∃ nc, REGISTRY st !! c = Some nc ∧ self ∈ deref st (parents nc)) →
  add_child self c st = (Done tt, st') →
  shape_inv root st' ∧ lists st' = lists st ∧
  ∀ i n, REGISTRY st !! i = Some n →
         ∃ n', REGISTRY st' !! i = Some n' ∧ parents n' = parents n.
Proof.
  intros (Hroot & Hne & Hlen & Hnodes & Hchildren) (nc & Hnc & Hin) Hrun.
  unfold add_child, alter_node, modify in Hrun. injection Hrun as <-.
  set (f := fun n : CFGNode =>
              if decide (c ∈ children n) then n
              else set_children (children n ++ [c]) n).
  assert (Hf : ∀ n, parents (f n) = parents n ∧ ast_node (f n) = ast_node n ∧
                    ∀ x, x ∈ children (f n) → x ∈ children n ∨ x = c).
  { intros n. unfold f. destruct (decide _); cbn; repeat split; auto.
    intros x Hx. apply elem_of_app in Hx as [Hx|Hx]; [auto|].
    apply list_elem_of_singleton in Hx. auto. }
  assert (Hlookup : ∀ i n', alter f self (REGISTRY st) !! i = Some n' →
            ∃ n, REGISTRY st !! i = Some n ∧ parents n' = parents n ∧
                 ast_node n' = ast_node n ∧
                 ∀ x, x ∈ children n' → x ∈ children n ∨ (x = c ∧ i = self)).
  { intros i n' Hn'. destruct (decide (self = i)) as [->|Hneq].
    - rewrite list_lookup_alter_eq in Hn'.
      destruct (REGISTRY st !! i) as [n|]; [|discriminate Hn'].
      injection Hn' as <-. exists n. destruct (Hf n) as (? & ? & Hch).
      repeat split; auto. intros x Hx. destruct (Hch x Hx); auto.
    - rewrite list_lookup_alter_ne in Hn' by exact Hneq. exists n'. auto. }
  assert (Hkeep : ∀ i n, REGISTRY st !! i = Some n →
            ∃ n', alter f self (REGISTRY st) !! i = Some n' ∧
                  parents n' = parents n).
  { intros i n Hn. destruct (decide (self = i)) as [->|Hneq].
    - rewrite list_lookup_alter_eq, Hn. eexists. split; [reflexivity|].
      apply Hf.
    - rewrite list_lookup_alter_ne by exact Hneq. eauto. }
  split; [|split; [reflexivity|exact Hkeep]].
  split; [exact Hroot|]. split; [exact Hne|]. cbn.
  split; [rewrite length_alter; exact Hlen|]. split.
  - intros i n' Hn'. destruct (Hlookup i n' Hn') as (n & Hn & Hp & Ha & _).
    rewrite Hp, Ha. apply Hnodes, Hn.
  - intros P nP' C HP HC.
    destruct (Hlookup P nP' HP) as (nP & HnP & _ & _ & Hsub).
    destruct (Hsub C HC) as [Hold|[-> ->]].
    + destruct (Hchildren P nP C HnP Hold) as (nC & HnC & HinC).
      destruct (Hkeep C nC HnC) as (nC' & HnC' & Hpar).
      exists nC'. split; [exact HnC'|]. unfold deref in *. cbn.
      rewrite Hpar. exact HinC.
    + destruct (Hkeep c nc Hnc) as (nc' & Hnc' & Hpar).
      exists nc'. split; [exact Hnc'|]. unfold deref in *. cbn.
      rewrite Hpar. exact Hin.
Qed.

Lemma register_node_shape (root : loc) (p : loc) (a : ast) (st : state)
    (v : nat) (st' : state) :
  shape_inv root st → frontier_ok root st p →
  register_node p a st = (Done v, st') →
  shape_inv root st' ∧ lists st' = lists st ∧ v ≠ 0%nat ∧
  ∃ n, REGISTRY st' !! v = Some n ∧ parents n = p.
Proof.
  intros (Hroot & Hne & Hlen & Hnodes & Hchildren) [Hp1 Hp2] Hrun.
  unfold register_node in Hrun. injection Hrun as <- <-.
  split; [|split; [reflexivity|split]].
  - split; [exact Hroot|]. split; [exact Hne|]. cbn.
    split; [rewrite length_app; lia|]. split.
    + intros i n Hn. apply lookup_app_Some in Hn as [Hn|[Hge Hn]].
      * apply Hnodes, Hn.
      * apply list_lookup_singleton_Some in Hn as [Hi <-]. cbn.
        split; [exact Hp2|]. split; [lia|auto].
    + intros P nP C HP HC. apply lookup_app_Some in HP as [HP|[Hge HP]].
      * destruct (Hchildren P nP C HP HC) as (nC & HnC & Hin).
        exists nC. split; [|exact Hin].
        apply lookup_app_Some. left. exact HnC.
      * apply list_lookup_singleton_Some in HP as [_ <-]. cbn in HC.
        apply elem_of_nil in HC. destruct HC.
  - unfold REGISTRY_IDX. lia.
  - eexists. split.
    + cbn. unfold REGISTRY_IDX. rewrite lookup_app_r by lia.
      rewrite Nat.sub_diag. reflexivity.
    + reflexivity.
Qed.

Lemma CFGNode_init_shape (root : loc) (p : loc) (a : ast) (st : state)
    (self : nat) (st' : state) :
  shape_inv root st → frontier_ok root st p →
  CFGNode_init p a st = (Done self, st') →
  shape_inv root st' ∧ lists st' = lists st ∧ self ≠ 0%nat.
Proof.
  intros Hshape Hp Hrun. unfold CFGNode_init in Hrun.
  apply bind_Done in Hrun as (v & st1 & Hreg & Hrun).
  apply bind_Done in Hrun as (ps & st2 & Hread & Hrun).
  injection Hread as <- <-.
  apply bind_Done in Hrun as ([] & st3 & Hloop & Hrun).
  apply bind_Done in Hrun as ([] & st4 & Hreset & Hrun).
  injection Hrun as <- <-.
  destruct (register_node_shape _ _ _ _ _ _ Hshape Hp Hreg)
    as (Hshape1 & Hlists1 & Hv & n1 & Hn1 & Hpar1).
  assert (Hloop' : shape_inv root st3 ∧ lists st3 = lists st1 ∧
                   ∃ n, REGISTRY st3 !! v = Some n ∧ parents n = p).
  { unfold CFGNode_update_children in Hloop.
    eapply (for_each_inv_in
              (fun s => shape_inv root s ∧ lists s = lists st1 ∧
                        ∃ n, REGISTRY s !! v = Some n ∧ parents n = p));
      [|split; [exact Hshape1|split; [reflexivity|eauto]]|exact Hloop].
    intros x s1 s2 Hx (Hs1 & Hl1 & n & Hn & Hpar) Hadd.
    destruct (add_child_shape root x v s1 s2 Hs1) as (Hs2 & Hl2 & Hkeep);
      [|exact Hadd|].
    - exists n. split; [exact Hn|]. unfold deref in *.
      rewrite Hpar, Hl1. exact Hx.
    - split; [exact Hs2|]. split; [congruence|].
      destruct (Hkeep v n Hn) as (n' & Hn' & Hpar').
      exists n'. split; [exact Hn'|congruence]. }
  destruct Hloop' as (Hshape3 & Hlists3 & _).
  destruct (alter_node_shape root (set_children []) v st3 st4) as
    (Hshape4 & Hlists4 & _); [|exact Hshape3|exact Hreset|].
  - intros n. cbn. repeat split. intros c Hc.
    apply elem_of_nil in Hc. destruct Hc.
  - split; [exact Hshape4|]. split; [congruence|exact Hv].
Qed.

Lemma add_parent_shape (root : loc) (self x : nat) (st st' : state) :
  shape_inv root st → self ≠ 0%nat →
  add_parent self x st = (Done tt, st') →
  shape_inv root st' ∧ REGISTRY st' = REGISTRY st ∧
  length (lists st') = length (lists st).
Proof.
  intros Hshape Hself Hrun. unfold add_parent in Hrun.
  apply bind_Done in Hrun as (s & st1 & Hget & Hrun).
  injection Hget as <- <-.
  destruct (node_of st self) as [n|] eqn:Hn;
    [|injection Hrun as <-; auto].
  destruct (decide _); [injection Hrun as <-; auto|].
  unfold list_append, modify in Hrun. injection Hrun as <-.
  destruct Hshape as (Hroot & Hne & Hlen & Hnodes & Hchildren).
  destruct (Hnodes self n Hn) as (_ & _ & Hgt). specialize (Hgt Hself).
  split; [|split; [reflexivity|cbn; apply length_alter]].
  split; [|split; [|split; [exact Hlen|split]]]; cbn.
  - rewrite list_lookup_alter_ne by lia. exact Hroot.
  - intros q l Hq Hl. destruct (decide (parents n = q)) as [<-|Hneq].
    + rewrite list_lookup_alter_eq in Hl.
      destruct (lists st !! parents n) as [l0|]; [|discriminate Hl].
      injection Hl as <-. destruct l0; discriminate.
    + rewrite list_lookup_alter_ne in Hl by exact Hneq.
      eapply Hne; eassumption.
  - intros i m Hm. rewrite length_alter. apply Hnodes, Hm.
  - intros P nP C HP HC.
    destruct (Hchildren P nP C HP HC) as (nC & HnC & Hin).
    exists nC. split; [exact HnC|]. unfold deref in *. cbn.
    destruct (decide (parents n = parents nC)) as [Heq|Hneq].
    + rewrite <- Heq in *. rewrite list_lookup_alter_eq.
      destruct (lists st !! parents n) as [l0|]; cbn in *.
      * apply elem_of_app. auto.
      * exact Hin.
    + rewrite list_lookup_alter_ne by exact Hneq. exact Hin.
Qed.

Lemma add_parents_shape (root : loc) (self : nat) (ps : loc)
    (st st' : state) :
  shape_inv root st → self ≠ 0%nat →
  add_parents self ps st = (Done tt, st') →
  shape_inv root st' ∧ REGISTRY st' = REGISTRY st ∧
  length (lists st') = length (lists st).
Proof.
  intros Hshape Hself Hrun. unfold add_parents in Hrun.
  apply bind_Done in Hrun as (l & st1 & Hread & Hrun).
  injection Hread as <- <-.
  eapply (for_each_inv
            (fun s => shape_inv root s ∧ REGISTRY s = REGISTRY st ∧
                      length (lists s) = length (lists st)));
    [|split; [exact Hshape|split; reflexivity]|exact Hrun].
  intros x s1 s2 (Hs1 & Hr1 & Hl1) Hx.
  destruct (add_parent_shape _ _ _ _ _ Hs1 Hself Hx) as (Hs2 & Hr2 & Hl2).
  split; [exact Hs2|]. split; congruence.
Qed.

Lemma update_control_set_shape (root : loc) (self : nat) (pred : Z)
    (st st' : state) :
  shape_inv root st → update_control_set self pred st = (Done tt, st') →
  shape_inv root st' ∧ lists st' = lists st.
Proof.
  intros Hshape Hrun. unfold update_control_set in Hrun.
  pose proof (fun Hf => alter_node_shape root _ self st st' Hf Hshape Hrun)
    as Hstep.
  destruct Hstep as (Hshape' & Hlists & _); [|auto].
  intros n. cbv beta. destruct (decide _); cbn; auto.
Qed.

Lemma frontier_ok_mono (root : loc) (st st' : state) (p : loc) :
  frontier_ok root st p → (length (lists st) ≤ length (lists st'))%nat →
  frontier_ok root st' p.
Proof. unfold frontier_ok. lia. Qed.

Section walk_shape.
Variable root : loc.

Lemma walk_body_keeps_shape (body : list ast) :
  Forall (walk_keeps_shape root) body →
  ∀ p st p' st',
    shape_inv root st → frontier_ok root st p →
    walk_body walk body p st = (Done p', st') →
    shape_inv root st' ∧ frontier_ok root st' p' ∧
    (length (lists st) ≤ length (lists st'))%nat.
Proof.
  induction 1 as [|n body Hn Hbody IH]; intros p st p' st' Hshape Hp Hrun.
  - injection Hrun as <- <-. auto.
  - cbn [walk_body] in Hrun.
    apply bind_Done in Hrun as (p1 & st1 & Hwalk & Hrun).
    destruct (Hn _ _ _ _ Hshape Hp Hwalk) as (Hshape1 & Hp1 & Hlen1).
    destruct (IH _ _ _ _ Hshape1 Hp1 Hrun) as (Hshape' & Hp' & Hlen').
    split; [exact Hshape'|]. split; [exact Hp'|lia].
Qed.

Lemma mark_keeps_shape (test : ast) (nodes : list nat) (st st' : state) :
  shape_inv root st →
  for_each (fun body_node =>
              l <- get_lineno test ;;
              update_control_set body_node l) nodes st = (Done tt, st') →
  shape_inv root st' ∧ lists st' = lists st.
Proof.
  intros Hshape Hrun.
  eapply (for_each_inv (fun s => shape_inv root s ∧ lists s = lists st));
    [|split; [exact Hshape|reflexivity]|exact Hrun].
  intros x s1 s2 [Hs1 Hl1] Hx.
  apply bind_Done in Hx as (l & s & Hget & Hx).
  unfold get_lineno in Hget.
  destruct (attr_lineno test); [|discriminate Hget].
  injection Hget as <- <-.
  destruct (update_control_set_shape _ _ _ _ _ Hs1 Hx) as [Hs2 Hl2].
  split; [exact Hs2|congruence].
Qed.

Lemma walk_branch_keeps_shape (test : ast) (body : list ast) :
  Forall (walk_keeps_shape root) body →
  ∀ p st p' st',
    shape_inv root st → frontier_ok root st p →
    walk_branch walk test body p st = (Done p', st') →
    shape_inv root st' ∧ frontier_ok root st' p' ∧
    (length (lists st) ≤ length (lists st'))%nat.
Proof.
  induction 1 as [|n body Hn Hbody IH]; intros p st p' st' Hshape Hp Hrun.
  - injection Hrun as <- <-. auto.
  - cbn [walk_branch] in Hrun.
    apply bind_Done in Hrun as (p1 & st1 & Hwalk & Hrun).
    apply bind_Done in Hrun as (ns & st2 & Hread & Hrun).
    injection Hread as <- <-.
    apply bind_Done in Hrun as ([] & st3 & Hmark & Hrun).
    destruct (Hn _ _ _ _ Hshape Hp Hwalk) as (Hshape1 & Hp1 & Hlen1).
    destruct (mark_keeps_shape _ _ _ _ Hshape1 Hmark) as (Hshape3 & Hlists3).
    assert (Hp3 : frontier_ok root st3 p1).
    { unfold frontier_ok in *. rewrite Hlists3. exact Hp1. }
    destruct (IH _ _ _ _ Hshape3 Hp3 Hrun) as (Hshape' & Hp' & Hlen').
    split; [exact Hshape'|]. split; [exact Hp'|]. rewrite Hlists3 in Hlen'.
    lia.
Qed.

(** A new node and the list that holds just that node. *)
Lemma node_and_list_shape (node : ast) (p : loc) (st : state) (n : nat)
    (st1 : state) (q : loc) (st2 : state) :
  shape_inv root st → frontier_ok root st p →
  CFGNode_init p node st = (Done n, st1) →
  new_list [n] st1 = (Done q, st2) →
  shape_inv root st2 ∧ frontier_ok root st2 q ∧ n ≠ 0%nat ∧
  (length (lists st) ≤ length (lists st2))%nat.
Proof.
  intros Hshape Hp Hinit Hnew.
  destruct (CFGNode_init_shape _ _ _ _ _ _ Hshape Hp Hinit)
    as (Hshape1 & Hlists1 & Hn).
  destruct (new_list_shape root [n] _ _ _ Hshape1 ltac:(discriminate) Hnew)
    as (Hshape2 & Hq & _ & Hlen2).
  split; [exact Hshape2|]. split; [exact Hq|]. split; [exact Hn|].
  rewrite Hlists1 in Hlen2. exact Hlen2.
Qed.

Lemma walk_keeps_shape_all (node : ast) : walk_keeps_shape root node.
Proof.
  induction node as
    [body Hbody
    |l targets value Htargets IHvalue
    |l target annotation IHtarget IHannotation
    |l value IHvalue
    |l test body orelse IHtest Hbody Horelse
    |l test body orelse IHtest Hbody Horelse
    |l id
    |l value
    |l lhs rhs IHlhs IHrhs
    |l lhs comparators IHlhs Hcomparators
    |l operand IHoperand
    |l cls] using ast_nested_ind;
    intros p st p' st' Hshape Hp Hrun.
  - rewrite walk_Module in Hrun.
    eapply walk_body_keeps_shape; eassumption.
  - rewrite walk_Assign in Hrun. unfold on_assign in Hrun.
    destruct (decide _) as [Hmany|Hone]; [discriminate Hrun|].
    apply bind_Done in Hrun as (n & st1 & Hinit & Hrun).
    apply bind_Done in Hrun as (q & st2 & Hnew & Hrun).
    destruct (node_and_list_shape _ _ _ _ _ _ _ Hshape Hp Hinit Hnew)
      as (Hshape2 & Hq & _ & Hlen2).
    destruct (IHvalue _ _ _ _ Hshape2 Hq Hrun) as (Hshape' & Hp' & Hlen').
    split; [exact Hshape'|]. split; [exact Hp'|lia].
  - rewrite walk_leaf in Hrun by exact I. injection Hrun as <- <-. auto.
  - rewrite walk_Expr in Hrun. unfold on_expr in Hrun.
    apply bind_Done in Hrun as (n & st1 & Hinit & Hrun).
    apply bind_Done in Hrun as (q & st2 & Hnew & Hrun).
    destruct (node_and_list_shape _ _ _ _ _ _ _ Hshape Hp Hinit Hnew)
      as (Hshape2 & Hq & _ & Hlen2).
    destruct (IHvalue _ _ _ _ Hshape2 Hq Hrun) as (Hshape' & Hp' & Hlen').
    split; [exact Hshape'|]. split; [exact Hp'|lia].
  - rewrite walk_While in Hrun. unfold on_while in Hrun.
    apply bind_Done in Hrun as (n & st1 & Hinit & Hrun).
    apply bind_Done in Hrun as (q & st2 & Hnew & Hrun).
    apply bind_Done in Hrun as (t & st3 & Hwalk & Hrun).
    apply bind_Done in Hrun as (tn & st4 & Hread & Hrun).
    injection Hread as <- <-.
    destruct (decide _) as [Hsingle|Hnot]; [|discriminate Hrun].
    apply bind_Done in Hrun as (p1 & st5 & Hwalk1 & Hrun).
    apply bind_Done in Hrun as ([] & st6 & Hadd & Hrun).
    injection Hrun as <- <-.
    destruct (node_and_list_shape _ _ _ _ _ _ _ Hshape Hp Hinit Hnew)
      as (Hshape2 & Hq & Hn & Hlen2).
    destruct (IHtest _ _ _ _ Hshape2 Hq Hwalk) as (Hshape3 & Ht & Hlen3).
    destruct (walk_body_keeps_shape body Hbody _ _ _ _ Hshape3 Ht Hwalk1)
      as (Hshape5 & Hp1 & Hlen5).
    destruct (add_parents_shape _ _ _ _ _ Hshape5 Hn Hadd)
      as (Hshape6 & _ & Hlen6).
    split; [exact Hshape6|]. split; [|lia].
    eapply frontier_ok_mono; [exact Ht|lia].
  - rewrite walk_If in Hrun. unfold on_if in Hrun.
    apply bind_Done in Hrun as (n & st1 & Hinit & Hrun).
    apply bind_Done in Hrun as (q & st2 & Hnew & Hrun).
    apply bind_Done in Hrun as (t & st3 & Hwalk & Hrun).
    apply bind_Done in Hrun as (tn & st4 & Hread & Hrun).
    injection Hread as <- <-.
    destruct (decide _) as [Hsingle|Hnot]; [|discriminate Hrun].
    apply bind_Done in Hrun as (p1 & st5 & Hwalk1 & Hrun).
    apply bind_Done in Hrun as (p2 & st6 & Hwalk2 & Hrun).
    apply bind_Done in Hrun as (l1 & st7 & Hread1 & Hrun).
    injection Hread1 as <- <-.
    apply bind_Done in Hrun as (l2 & st8 & Hread2 & Hrun).
    injection Hread2 as <- <-.
    destruct (node_and_list_shape _ _ _ _ _ _ _ Hshape Hp Hinit Hnew)
      as (Hshape2 & Hq & Hn & Hlen2).
    destruct (IHtest _ _ _ _ Hshape2 Hq Hwalk) as (Hshape3 & Ht & Hlen3).
    destruct (walk_branch_keeps_shape test body Hbody _ _ _ _ Hshape3 Ht Hwalk1)
      as (Hshape5 & Hp1 & Hlen5).
    destruct (walk_branch_keeps_shape test orelse Horelse _ _ _ _ Hshape5
                (frontier_ok_mono _ _ _ _ Ht Hlen5) Hwalk2)
      as (Hshape6 & Hp2 & Hlen6).
    assert (Hne : deref st6 p1 ++ deref st6 p2 ≠ []).
    { destruct Hp2 as [Hp2 Hp2'].
      apply lookup_lt_is_Some in Hp2' as [l2 Hl2].
      destruct Hshape6 as (_ & Hnonempty & _).
      pose proof (Hnonempty _ _ Hp2 Hl2) as Hl2'.
      unfold deref. rewrite Hl2. cbn. intros Happ.
      apply app_eq_nil in Happ as [_ Happ]. contradiction. }
    destruct (new_list_shape root _ _ _ _ Hshape6 Hne Hrun)
      as (Hshape' & Hp' & _ & Hlen').
    split; [exact Hshape'|]. split; [exact Hp'|lia].
  - rewrite walk_leaf in Hrun by exact I. injection Hrun as <- <-. auto.
  - rewrite walk_leaf in Hrun by exact I. injection Hrun as <- <-. auto.
  - rewrite walk_BinOp in Hrun. unfold on_binop in Hrun.
    apply bind_Done in Hrun as (p1 & st1 & Hleft & Hrun).
    destruct (IHlhs _ _ _ _ Hshape Hp Hleft) as (Hshape1 & Hp1 & Hlen1).
    destruct (IHrhs _ _ _ _ Hshape1 Hp1 Hrun) as (Hshape' & Hp' & Hlen').
    split; [exact Hshape'|]. split; [exact Hp'|lia].
  - rewrite walk_Compare in Hrun. unfold on_compare in Hrun.
    apply bind_Done in Hrun as (p1 & st1 & Hleft & Hrun).
    destruct (IHlhs _ _ _ _ Hshape Hp Hleft) as (Hshape1 & Hp1 & Hlen1).
    destruct Hcomparators as [|c comparators Hc _]; [discriminate Hrun|].
    destruct (Hc _ _ _ _ Hshape1 Hp1 Hrun) as (Hshape' & Hp' & Hlen').
    split; [exact Hshape'|]. split; [exact Hp'|lia].
  - rewrite walk_UnaryOp in Hrun. unfold on_unaryop in Hrun.
    eapply IHoperand; eassumption.
  - rewrite walk_leaf in Hrun by exact I. injection Hrun as <- <-. auto.
Qed.
End walk_shape.

Lemma PyCFG_init_run (st : state) :
  PyCFG_init (set_REGISTRY [] st)
  = (Done 0%nat,
     mkState [mkCFGNode 0 (length (lists st)) (Expr 0 (Name 1 "start"))
                        [] [] ∅ ∅]
             (lists st ++ [[]])).
Proof.
  unfold PyCFG_init, bind, new_list, CFGNode_init, bind, register_node,
    read_list, deref. cbn.
  rewrite list_lookup_middle by reflexivity. reflexivity.
Qed.

Lemma PyCFG_init_shape (st : state) :
  shape_inv (length (lists st))
    (mkState [mkCFGNode 0 (length (lists st)) (Expr 0 (Name 1 "start"))
                        [] [] ∅ ∅]
             (lists st ++ [[]])).
Proof.
  split; [|split; [|split; [|split]]]; cbn.
  - apply list_lookup_middle. reflexivity.
  - intros q l Hq Hl. apply lookup_lt_Some in Hl.
    rewrite length_app in Hl. cbn in Hl. lia.
  - lia.
  - intros i n Hn. apply list_lookup_singleton_Some in Hn as [-> <-]. cbn.
    split; [rewrite length_app; cbn; lia|]. split; [auto|].
    intros Hne. contradiction.
  - intros P nP C HP HC. apply list_lookup_singleton_Some in HP as [-> <-].
    cbn in HC. apply elem_of_nil in HC. destruct HC.
Qed.

Lemma PyCFG_update_children_shape (base root : loc) (st st' : state) :
  builder_inv base st → shape_inv root st →
  PyCFG_update_children st = (Done tt, st') →
  shape_inv root st'.
Proof.
  intros Hinv Hshape Hrun. unfold PyCFG_update_children in Hrun.
  apply bind_Done in Hrun as (s & st1 & Hget & Hrun).
  injection Hget as <- <-.
  set (Inv := fun s : state =>
         shape_inv root s ∧ lists s = lists st ∧
         ∀ i n, REGISTRY st !! i = Some n →
                ∃ n', REGISTRY s !! i = Some n' ∧ parents n' = parents n).
  enough (Hend : Inv st') by apply Hend.
  eapply (for_each_inv_in Inv); [|split; [exact Hshape|split; eauto]|exact Hrun].
  intros node s1 s2 Hnode Hs1 Hbody.
  apply bind_Done in Hbody as (ps & s0 & Hread & Hbody).
  injection Hread as <- <-.
  apply list_elem_of_lookup_1 in Hnode as [i Hi].
  destruct Hinv as (_ & _ & Hnodes). destruct (Hnodes i node Hi) as (Hrid & _).
  assert (Hps : deref s1 (parents node) = deref st (parents node)).
  { unfold deref. destruct Hs1 as (_ & Hl & _). rewrite Hl. reflexivity. }
  rewrite Hps in Hbody.
  eapply (for_each_inv_in Inv); [|exact Hs1|exact Hbody].
  intros p s3 s4 Hp (Hs3 & Hl3 & Hk3) Hadd.
  destruct (add_child_shape root p (rid node) s3 s4 Hs3) as (Hs4 & Hl4 & Hk4);
    [|exact Hadd|].
  - destruct (Hk3 i node Hi) as (n' & Hn' & Hpar). rewrite Hrid.
    exists n'. split; [exact Hn'|]. unfold deref in *. rewrite Hpar, Hl3.
    exact Hp.
  - split; [exact Hs4|]. split; [congruence|]. intros j m Hm.
    destruct (Hk3 j m Hm) as (m' & Hm' & Hpar').
    destruct (Hk4 j m' Hm') as (m'' & Hm'' & Hpar'').
    exists m''. split; [exact Hm''|congruence].
Qed.

Lemma gen_cfg_shape (tree : ast) (st st' : state) :
  gen_cfg tree st = (Done tt, st') → shape_inv (length (lists st)) st'.
Proof.
  intros Hrun.
  destruct (gen_cfg_stages _ _ _ Hrun)
    as (l0 & st1 & founder & st2 & l1 & st3 & frontier & st4 & stop & st5 &
        Hnew0 & Hinit & Hnew1 & Hwalk & Hstop & Hpass).
  set (base := length (lists st)).
  pose proof (reset_registry_inv st) as Hinv0. fold base in Hinv0.
  destruct (new_list_inv base [] _ _ _ Hinv0 ltac:(constructor) Hnew0)
    as (Hinv1 & _ & Hl0).
  destruct (CFGNode_init_inv _ _ _ _ _ _ Hinv1 Hl0 Hinit)
    as (Hinv2 & _ & Hfounder).
  destruct (new_list_inv base [founder] _ _ _ Hinv2
              ltac:(constructor; [exact Hfounder|constructor]) Hnew1)
    as (Hinv3 & _ & Hl1).
  destruct (walk_keeps_all base tree _ _ _ _ Hinv3 Hl1 Hwalk)
    as (Hinv4 & _ & Hfrontier).
  destruct (CFGNode_init_inv _ _ _ _ _ _ Hinv4 Hfrontier Hstop)
    as (Hinv5 & _ & _).
  pose proof (PyCFG_init_run st) as Hstart.
  unfold PyCFG_init in Hstart. unfold bind in Hstart.
  rewrite Hnew0 in Hstart. rewrite Hinit in Hstart.
  injection Hstart as -> ->.
  pose proof (PyCFG_init_shape st) as Hshape2. fold base in Hshape2.
  destruct (new_list_shape base [0%nat] _ _ _ Hshape2 ltac:(discriminate) Hnew1)
    as (Hshape3 & Hfr1 & _ & _).
  destruct (walk_keeps_shape_all base tree _ _ _ _ Hshape3 Hfr1 Hwalk)
    as (Hshape4 & Hfr & _).
  destruct (CFGNode_init_shape _ _ _ _ _ _ Hshape4 Hfr Hstop)
    as (Hshape5 & _ & _).
  exact (PyCFG_update_children_shape _ _ _ _ Hinv5 Hshape5 Hpass).
Qed.

(** X11: when [gen_cfg] returns, node 0 is the start node, on line 0 and
    without parents, and it is the only root: every other node of the
    registry has at least one parent. *)
Theorem start_node_is_the_only_root (tree : ast) (st st' : state) :
  gen_cfg tree st = (Done tt, st') →
  (∃ n0, node_of st' 0 = Some n0 ∧ lineno n0 = 0 ∧
         deref st' (parents n0) = []) ∧
  ∀ i n, i ≠ 0%nat → node_of st' i = Some n → deref st' (parents n) ≠ [].
Proof.
  intros Hrun.
  destruct (gen_cfg_shape _ _ _ Hrun) as (Hroot & Hne & Hlen & Hnodes & _).
  split.
  - apply lookup_lt_is_Some_2 in Hlen as [n0 Hn0]. exists n0.
    destruct (Hnodes 0%nat n0 Hn0) as (_ & H0 & _).
    destruct (H0 eq_refl) as [Hpar Hast].
    split; [exact Hn0|]. split; [unfold lineno; rewrite Hast; reflexivity|].
    unfold deref. rewrite Hpar, Hroot. reflexivity.
  - intros i n Hi Hn. destruct (Hnodes i n Hn) as (Hlt & _ & Hgt).
    specialize (Hgt Hi). apply lookup_lt_is_Some in Hlt as [l Hl].
    unfold deref. rewrite Hl. cbn. eapply Hne; eassumption.
Qed.

Lemma start_node_is_the_only_root_witness :
  (∃ n0, node_of (cfg_of scenario_D) 0 = Some n0 ∧ lineno n0 = 0 ∧
         deref (cfg_of scenario_D) (parents n0) = []) ∧
  ∀ i n, i ≠ 0%nat → node_of (cfg_of scenario_D) i = Some n →
         deref (cfg_of scenario_D) (parents n) ≠ [].
Proof.
  apply (start_node_is_the_only_root scenario_D init_state).
  vm_compute. reflexivity.
Defined.

(** X12: when [gen_cfg] returns, the children lists hold nothing but the
    inverse of the parent lists: whenever [C] is among the children of [P],
    [C] is a registered node and [P] is in its parent list. *)
Theorem children_only_of_parents (tree : ast) (st st' : state)
    (P C : nat) (nP : CFGNode) :
  gen_cfg tree st = (Done tt, st') →
  node_of st' P = Some nP → C ∈ children nP →
  ∃ nC, node_of st' C = Some nC ∧ P ∈ deref st' (parents nC).
Proof.
  intros Hrun HP HC.
  destruct (gen_cfg_shape _ _ _ Hrun) as (_ & _ & _ & _ & Hchildren).
  eapply Hchildren; eassumption.
Qed.

Lemma children_only_of_parents_witness :
  ∃ nC, node_of (cfg_of scenario_D) 2 = Some nC ∧
        3%nat ∈ deref (cfg_of scenario_D) (parents nC).
Proof.
  eapply (children_only_of_parents scenario_D init_state _ 3 2).
  - vm_compute. reflexivity.
  - vm_compute. reflexivity.
  - vm_compute. apply list_elem_of_In. cbn. auto.
Defined.

(** ** Programs without [while] *)

Lemma parents_before_node (st : state) (i : nat) (n : CFGNode) :
  parents_before st = true → node_of st i = Some n →
  Forall (fun p => (p < i)%nat) (deref st (parents n)).
Proof.
  intros Horder Hn. unfold parents_before in Horder.
  rewrite forallb_forall in Horder.
  assert (Hi : In i (seq 0 (length (REGISTRY st)))).
  { apply in_seq. apply lookup_lt_Some in Hn. lia. }
  specialize (Horder i Hi). rewrite Hn in Horder.
  rewrite forallb_forall in Horder. apply Forall_forall. intros p Hp.
  apply list_elem_of_In, Horder, Nat.ltb_lt in Hp. exact Hp.
Qed.

Lemma deref_width (st : state) (q : loc) :
  (length (deref st q) ≤ width st)%nat.
Proof.
  unfold deref, width. destruct (lists st !! q) as [l|] eqn:Hl; cbn; [|lia].
  apply max_list_elem_of_le, list_elem_of_fmap. exists l.
  split; [reflexivity|]. eapply list_elem_of_lookup_2. exact Hl.
Qed.

Lemma sum_list_with_bound {A} (f : A → nat) (B : nat) (l : list A) :
  Forall (fun x => (f x ≤ B)%nat) l →
  (sum_list_with f l ≤ length l * B)%nat.
Proof. induction 1 as [|x l Hx Hl IH]; cbn; lia. Qed.

Lemma ranked_of_order (st : state) :
  parents_before st = true →
  ranked st (fun i => (width st + 2) ^ i - 1)%nat = true.
Proof.
  intros Horder. unfold ranked. apply forallb_forall. intros i Hi.
  destruct (node_of st i) as [n|] eqn:Hn; [|reflexivity].
  apply Nat.leb_le.
  pose proof (parents_before_node _ _ _ Horder Hn) as Hps.
  pose proof (deref_width st (parents n)) as Hwidth.
  set (m := width st) in *. set (ps := deref st (parents n)) in *.
  destruct i as [|j].
  - destruct ps as [|p ps]; [cbn; lia|].
    apply Forall_cons in Hps as [Hp _]. lia.
  - assert (Hone : ∀ k, (1 ≤ (m + 2) ^ k)%nat).
    { intros k. pose proof (Nat.pow_nonzero (m + 2) k). lia. }
    assert (Hbound : Forall (fun p => (S ((m + 2) ^ p - 1) ≤ (m + 2) ^ j)%nat)
                       ps).
    { eapply Forall_impl; [exact Hps|]. intros p Hp. cbn beta in *.
      specialize (Hone p).
      assert ((m + 2) ^ p ≤ (m + 2) ^ j)%nat
        by (apply Nat.pow_le_mono_r; lia).
      lia. }
    apply (sum_list_with_bound (fun p => S ((m + 2) ^ p - 1))) in Hbound.
    rewrite Nat.pow_succ_r'. specialize (Hone j). nia.
Qed.

Lemma ordered_cfg_ends (st : state) (fuel seed : nat) (vars : gset string) :
  parents_before st = true → ((width st + 2) ^ seed < fuel)%nat →
  ended (build_slice fuel seed vars st).
Proof.
  intros Horder Hfuel.
  apply (ranked_cfg_ends st (fun i => (width st + 2) ^ i - 1)%nat).
  - apply ranked_of_order, Horder.
  - pose proof (Nat.pow_nonzero (width st + 2) seed). lia.
Qed.

Lemma order_inv_view (st st' : state) :
  parents <$> REGISTRY st' = parents <$> REGISTRY st →
  lists st' = lists st → order_inv st → order_inv st'.
Proof.
  intros Hview Hlists Horder i n' Hn'.
  assert (Hq : (parents <$> REGISTRY st') !! i = Some (parents n'))
    by (rewrite list_lookup_fmap, Hn'; reflexivity).
  rewrite Hview, list_lookup_fmap in Hq.
  destruct (REGISTRY st !! i) as [n|] eqn:Hn; [|discriminate Hq].
  injection Hq as Hq. unfold deref. rewrite Hlists, <- Hq.
  apply (Horder i n Hn).
Qed.

Lemma alter_node_view (f : CFGNode → CFGNode) (r : nat) (st st' : state) :
  (∀ n, parents (f n) = parents n) →
  alter_node f r st = (Done tt, st') →
  parents <$> REGISTRY st' = parents <$> REGISTRY st ∧ lists st' = lists st.
Proof.
  intros Hf Hrun. unfold alter_node, modify in Hrun. injection Hrun as <-.
  split; [|reflexivity]. cbn. generalize (REGISTRY st) as l. clear st.
  intros l. revert r. induction l as [|n l IH]; intros [|r]; cbn;
    try reflexivity.
  - rewrite Hf. reflexivity.
  - f_equal. apply IH.
Qed.

Lemma add_child_view (self c : nat) (st st' : state) :
  add_child self c st = (Done tt, st') →
  parents <$> REGISTRY st' = parents <$> REGISTRY st ∧ lists st' = lists st.
Proof.
  intros Hrun. unfold add_child in Hrun.
  eapply alter_node_view; [|exact Hrun].
  intros n. cbv beta. destruct (decide _); reflexivity.
Qed.

Lemma update_control_set_view (self : nat) (pred : Z) (st st' : state) :
  update_control_set self pred st = (Done tt, st') →
  parents <$> REGISTRY st' = parents <$> REGISTRY st ∧ lists st' = lists st.
Proof.
  intros Hrun. unfold update_control_set in Hrun.
  eapply alter_node_view; [|exact Hrun].
  intros n. cbv beta. destruct (decide _); reflexivity.
Qed.

Lemma CFGNode_init_view (p : loc) (a : ast) (st : state) (self : nat)
    (st' : state) :
  CFGNode_init p a st = (Done self, st') →
  parents <$> REGISTRY st' = (parents <$> REGISTRY st) ++ [p] ∧
  lists st' = lists st.
Proof.
  intros Hrun. unfold CFGNode_init in Hrun.
  apply bind_Done in Hrun as (v & st1 & Hreg & Hrun).
  apply bind_Done in Hrun as (ps & st2 & Hread & Hrun).
  injection Hread as <- <-.
  apply bind_Done in Hrun as ([] & st3 & Hloop & Hrun).
  apply bind_Done in Hrun as ([] & st4 & Hreset & Hrun).
  injection Hrun as <- <-.
  unfold register_node in Hreg. injection Hreg as <- <-.
  assert (Hloop' : parents <$> REGISTRY st3
                   = (parents <$> REGISTRY st) ++ [p] ∧ lists st3 = lists st).
  { unfold CFGNode_update_children in Hloop.
    eapply (for_each_inv
              (fun s => parents <$> REGISTRY s
                        = (parents <$> REGISTRY st) ++ [p] ∧
                        lists s = lists st)); [| |exact Hloop].
    - intros x s1 s2 [Hv1 Hl1] Hx.
      destruct (add_child_view _ _ _ _ Hx) as [Hv2 Hl2].
      split; congruence.
    - cbn. rewrite fmap_app. auto. }
  destruct Hloop' as [Hv3 Hl3].
  destruct (alter_node_view (set_children []) _ _ _
              ltac:(reflexivity) Hreset) as [Hv4 Hl4].
  split; congruence.
Qed.

Lemma CFGNode_init_order (base : nat) (p : loc) (a : ast) (st : state)
    (self : nat) (st' : state) :
  builder_inv base st → (base ≤ p)%nat → order_inv st →
  CFGNode_init p a st = (Done self, st') → order_inv st'.
Proof.
  intros (_ & Hlists & _) Hp Horder Hrun.
  destruct (CFGNode_init_view _ _ _ _ _ Hrun) as [Hview Hl].
  intros i n' Hn'.
  assert (Hq : (parents <$> REGISTRY st') !! i = Some (parents n'))
    by (rewrite list_lookup_fmap, Hn'; reflexivity).
  rewrite Hview in Hq. unfold deref. rewrite Hl.
  apply lookup_app_Some in Hq as [Hq|[Hge Hq]].
  - rewrite list_lookup_fmap in Hq.
    destruct (REGISTRY st !! i) as [n|] eqn:Hn; [|discriminate Hq].
    injection Hq as Hq. rewrite <- Hq. apply (Horder i n Hn).
  - apply list_lookup_singleton_Some in Hq as [Hi <-].
    rewrite length_fmap in Hge, Hi.
    eapply Forall_impl; [apply (Hlists p Hp)|].
    intros x Hx. unfold registered in Hx. lia.
Qed.

Lemma new_list_order (root : loc) (l : list nat) (st : state) (p : loc)
    (st' : state) :
  shape_inv root st → order_inv st → new_list l st = (Done p, st') →
  order_inv st'.
Proof.
  intros (_ & _ & _ & Hnodes & _) Horder Hrun.
  unfold new_list in Hrun. injection Hrun as <- <-.
  intros i n Hn. cbn in Hn. destruct (Hnodes i n Hn) as (Hlt & _).
  unfold deref. cbn. rewrite lookup_app_l by exact Hlt. apply (Horder i n Hn).
Qed.

Lemma mark_order (test : ast) (nodes : list nat) (st st' : state) :
  order_inv st →
  for_each (fun body_node =>
              l <- get_lineno test ;;
              update_control_set body_node l) nodes st = (Done tt, st') →
  order_inv st'.
Proof.
  intros Horder Hrun.
  eapply (for_each_inv order_inv); [|exact Horder|exact Hrun].
  intros x s1 s2 Hs1 Hx.
  apply bind_Done in Hx as (l & s & Hget & Hx).
  unfold get_lineno in Hget.
  destruct (attr_lineno test); [|discriminate Hget].
  injection Hget as <- <-.
  destruct (update_control_set_view _ _ _ _ Hx) as [Hv Hl].
  eapply order_inv_view; eassumption.
Qed.

Section walk_order.
Variable base : nat.

Lemma frontier_ok_base (st : state) (p : loc) :
  frontier_ok base st p → (base ≤ p)%nat.
Proof. unfold frontier_ok. lia. Qed.

Lemma walk_build_inv (node : ast) (p : loc) (st : state) (p' : loc)
    (st' : state) :
  build_inv base st p → walk node p st = (Done p', st') →
  build_inv base st' p'.
Proof.
  intros (Hinv & Hshape & Hp) Hrun.
  destruct (walk_keeps_all base node _ _ _ _ Hinv (frontier_ok_base _ _ Hp)
              Hrun) as (Hinv' & _ & _).
  destruct (walk_keeps_shape_all base node _ _ _ _ Hshape Hp Hrun)
    as (Hshape' & Hp' & _).
  split; [exact Hinv'|]. split; [exact Hshape'|exact Hp'].
Qed.

Lemma node_and_list_build_inv (node : ast) (p : loc) (st : state) (n : nat)
    (st1 : state) (q : loc) (st2 : state) :
  build_inv base st p → order_inv st →
  CFGNode_init p node st = (Done n, st1) →
  new_list [n] st1 = (Done q, st2) →
  build_inv base st2 q ∧ order_inv st2 ∧
  (length (lists st) ≤ length (lists st2))%nat.
Proof.
  intros (Hinv & Hshape & Hp) Horder Hinit Hnew.
  pose proof (frontier_ok_base _ _ Hp) as Hbase.
  destruct (CFGNode_init_inv _ _ _ _ _ _ Hinv Hbase Hinit)
    as (Hinv1 & _ & Hn).
  destruct (new_list_inv base [n] _ _ _ Hinv1
              ltac:(constructor; [exact Hn|constructor]) Hnew)
    as (Hinv2 & _ & _).
  destruct (CFGNode_init_shape _ _ _ _ _ _ Hshape Hp Hinit)
    as (Hshape1 & _ & _).
  destruct (node_and_list_shape base _ _ _ _ _ _ _ Hshape Hp Hinit Hnew)
    as (Hshape2 & Hq & _ & Hlen).
  pose proof (CFGNode_init_order _ _ _ _ _ _ Hinv Hbase Horder Hinit)
    as Horder1.
  pose proof (new_list_order _ _ _ _ _ Hshape1 Horder1 Hnew) as Horder2.
  split; [split; [exact Hinv2|split; [exact Hshape2|exact Hq]]|].
  split; [exact Horder2|exact Hlen].
Qed.

Lemma walk_body_order (body : list ast) :
  Forall (walk_keeps_order base) body → forallb while_free body = true →
  ∀ p st p' st',
    build_inv base st p → order_inv st →
    walk_body walk body p st = (Done p', st') → order_inv st'.
Proof.
  induction 1 as [|n body Hn Hbody IH]; intros Hfree p st p' st' Hb Horder Hrun.
  - injection Hrun as <- <-. exact Horder.
  - cbn [forallb] in Hfree. apply andb_prop in Hfree as [Hfree_n Hfree].
    cbn [walk_body] in Hrun.
    apply bind_Done in Hrun as (p1 & st1 & Hwalk & Hrun).
    eapply (IH Hfree); [|eapply Hn; eassumption|exact Hrun].
    eapply walk_build_inv; eassumption.
Qed.

Lemma walk_branch_order (test : ast) (body : list ast) :
  Forall (walk_keeps_order base) body → forallb while_free body = true →
  ∀ p st p' st',
    build_inv base st p → order_inv st →
    walk_branch walk test body p st = (Done p', st') →
    order_inv st' ∧ build_inv base st' p' ∧
    (length (lists st) ≤ length (lists st'))%nat.
Proof.
  induction 1 as [|n body Hn Hbody IH]; intros Hfree p st p' st' Hb Horder Hrun.
  - injection Hrun as <- <-. auto.
  - cbn [forallb] in Hfree. apply andb_prop in Hfree as [Hfree_n Hfree].
    cbn [walk_branch] in Hrun.
    apply bind_Done in Hrun as (p1 & st1 & Hwalk & Hrun).
    apply bind_Done in Hrun as (ns & st2 & Hread & Hrun).
    injection Hread as <- <-.
    apply bind_Done in Hrun as ([] & st3 & Hmark & Hrun).
    pose proof (walk_build_inv _ _ _ _ _ Hb Hwalk) as (Hinv1 & Hshape1 & Hp1).
    destruct Hb as (Hinv & Hshape & Hp).
    destruct (walk_keeps_shape_all base n _ _ _ _ Hshape Hp Hwalk)
      as (_ & _ & Hlen1).
    pose proof (Hn Hfree_n _ _ _ _ (conj Hinv (conj Hshape Hp)) Horder Hwalk)
      as Horder1.
    destruct (mark_keeps base _ _ _ _ Hinv1 Hmark) as (Hinv3 & _).
    destruct (mark_keeps_shape base _ _ _ _ Hshape1 Hmark)
      as (Hshape3 & Hlists3).
    pose proof (mark_order _ _ _ _ Horder1 Hmark) as Horder3.
    assert (Hb3 : build_inv base st3 p1).
    { split; [exact Hinv3|]. split; [exact Hshape3|].
      unfold frontier_ok in *. rewrite Hlists3. exact Hp1. }
    destruct (IH Hfree _ _ _ _ Hb3 Horder3 Hrun) as (Horder' & Hb' & Hlen').
    split; [exact Horder'|]. split; [exact Hb'|].
    rewrite Hlists3 in Hlen'. lia.
Qed.

Lemma walk_keeps_order_all (node : ast) : walk_keeps_order base node.
Proof.
  induction node as
    [body Hbody
    |l targets value Htargets IHvalue
    |l target annotation IHtarget IHannotation
    |l value IHvalue
    |l test body orelse IHtest Hbody Horelse
    |l test body orelse IHtest Hbody Horelse
    |l id
    |l value
    |l lhs rhs IHlhs IHrhs
    |l lhs comparators IHlhs Hcomparators
    |l operand IHoperand
    |l cls] using ast_nested_ind;
    intros Hfree p st p' st' Hb Horder Hrun.
  - rewrite walk_Module in Hrun.
    eapply walk_body_order; eassumption.
  - rewrite walk_Assign in Hrun. unfold on_assign in Hrun.
    destruct (decide _) as [Hmany|Hone]; [discriminate Hrun|].
    apply bind_Done in Hrun as (n & st1 & Hinit & Hrun).
    apply bind_Done in Hrun as (q & st2 & Hnew & Hrun).
    destruct (node_and_list_build_inv _ _ _ _ _ _ _ Hb Horder Hinit Hnew)
      as (Hb2 & Horder2 & _).
    eapply IHvalue; eassumption.
  - rewrite walk_leaf in Hrun by exact I. injection Hrun as <- <-.
    exact Horder.
  - rewrite walk_Expr in Hrun. unfold on_expr in Hrun.
    apply bind_Done in Hrun as (n & st1 & Hinit & Hrun).
    apply bind_Done in Hrun as (q & st2 & Hnew & Hrun).
    destruct (node_and_list_build_inv _ _ _ _ _ _ _ Hb Horder Hinit Hnew)
      as (Hb2 & Horder2 & _).
    eapply IHvalue; eassumption.
  - discriminate Hfree.
  - cbn [while_free] in Hfree.
    apply andb_prop in Hfree as [Hfree Hfree_orelse].
    apply andb_prop in Hfree as [Hfree_test Hfree_body].
    rewrite walk_If in Hrun. unfold on_if in Hrun.
    apply bind_Done in Hrun as (n & st1 & Hinit & Hrun).
    apply bind_Done in Hrun as (q & st2 & Hnew & Hrun).
    apply bind_Done in Hrun as (t & st3 & Hwalk & Hrun).
    apply bind_Done in Hrun as (tn & st4 & Hread & Hrun).
    injection Hread as <- <-.
    destruct (decide _) as [Hsingle|Hnot]; [|discriminate Hrun].
    apply bind_Done in Hrun as (p1 & st5 & Hwalk1 & Hrun).
    apply bind_Done in Hrun as (p2 & st6 & Hwalk2 & Hrun).
    apply bind_Done in Hrun as (l1 & st7 & Hread1 & Hrun).
    injection Hread1 as <- <-.
    apply bind_Done in Hrun as (l2 & st8 & Hread2 & Hrun).
    injection Hread2 as <- <-.
    destruct (node_and_list_build_inv _ _ _ _ _ _ _ Hb Horder Hinit Hnew)
      as (Hb2 & Horder2 & _).
    pose proof (walk_build_inv _ _ _ _ _ Hb2 Hwalk) as Hb3.
    pose proof (IHtest Hfree_test _ _ _ _ Hb2 Horder2 Hwalk) as Horder3.
    destruct (walk_branch_order test body Hbody Hfree_body _ _ _ _ Hb3 Horder3
                Hwalk1) as (Horder5 & Hb5 & Hlen5).
    assert (Hb5' : build_inv base st5 t).
    { destruct Hb5 as (Hinv5 & Hshape5 & Hp5). split; [exact Hinv5|].
      split; [exact Hshape5|]. destruct Hb3 as (_ & _ & Ht).
      unfold frontier_ok in *. lia. }
    destruct (walk_branch_order test orelse Horelse Hfree_orelse _ _ _ _ Hb5'
                Horder5 Hwalk2) as (Horder6 & Hb6 & _).
    destruct Hb6 as (_ & Hshape6 & _).
    eapply new_list_order; eassumption.
  - rewrite walk_leaf in Hrun by exact I. injection Hrun as <- <-.
    exact Horder.
  - rewrite walk_leaf in Hrun by exact I. injection Hrun as <- <-.
    exact Horder.
  - cbn [while_free] in Hfree. apply andb_prop in Hfree as [Hfree_l Hfree_r].
    rewrite walk_BinOp in Hrun. unfold on_binop in Hrun.
    apply bind_Done in Hrun as (p1 & st1 & Hleft & Hrun).
    eapply (IHrhs Hfree_r); [|eapply IHlhs; eassumption|exact Hrun].
    eapply walk_build_inv; eassumption.
  - rewrite walk_Compare in Hrun. unfold on_compare in Hrun.
    apply bind_Done in Hrun as (p1 & st1 & Hleft & Hrun).
    destruct Hcomparators as [|c comparators Hc _]; [discriminate Hrun|].
    cbn [while_free] in Hfree. apply andb_prop in Hfree as [Hfree_l Hfree_c].
    eapply (Hc Hfree_c); [|eapply IHlhs; eassumption|exact Hrun].
    eapply walk_build_inv; eassumption.
  - rewrite walk_UnaryOp in Hrun. unfold on_unaryop in Hrun.
    eapply IHoperand; eassumption.
  - rewrite walk_leaf in Hrun by exact I. injection Hrun as <- <-.
    exact Horder.
Qed.
End walk_order.

Lemma PyCFG_update_children_order (st st' : state) :
  order_inv st → PyCFG_update_children st = (Done tt, st') → order_inv st'.
Proof.
  intros Horder Hrun. unfold PyCFG_update_children in Hrun.
  apply bind_Done in Hrun as (s & st1 & Hget & Hrun).
  injection Hget as <- <-.
  eapply (for_each_inv order_inv); [|exact Horder|exact Hrun].
  intros node s1 s2 Hs1 Hnode.
  apply bind_Done in Hnode as (ps & s0 & Hread & Hnode).
  injection Hread as <- <-.
  eapply (for_each_inv order_inv); [|exact Hs1|exact Hnode].
  intros p s3 s4 Hs3 Hp. destruct (add_child_view _ _ _ _ Hp) as [Hv Hl].
  eapply order_inv_view; eassumption.
Qed.

Lemma gen_cfg_order (tree : ast) (st st' : state) :
  while_free tree = true → gen_cfg tree st = (Done tt, st') → order_inv st'.
Proof.
  intros Hfree Hrun.
  destruct (gen_cfg_stages _ _ _ Hrun)
    as (l0 & st1 & founder & st2 & l1 & st3 & frontier & st4 & stop & st5 &
        Hnew0 & Hinit & Hnew1 & Hwalk & Hstop & Hpass).
  set (base := length (lists st)).
  pose proof (reset_registry_inv st) as Hinv0. fold base in Hinv0.
  destruct (new_list_inv base [] _ _ _ Hinv0 ltac:(constructor) Hnew0)
    as (Hinv1 & _ & Hl0).
  destruct (CFGNode_init_inv _ _ _ _ _ _ Hinv1 Hl0 Hinit)
    as (Hinv2 & _ & Hfounder).
  destruct (new_list_inv base [founder] _ _ _ Hinv2
              ltac:(constructor; [exact Hfounder|constructor]) Hnew1)
    as (Hinv3 & _ & Hl1).
  pose proof (PyCFG_init_run st) as Hstart.
  unfold PyCFG_init in Hstart. unfold bind in Hstart.
  rewrite Hnew0 in Hstart. rewrite Hinit in Hstart.
  injection Hstart as -> ->.
  pose proof (PyCFG_init_shape st) as Hshape2. fold base in Hshape2.
  assert (Horder2 : order_inv
            (mkState [mkCFGNode 0 base (Expr 0 (Name 1 "start")) [] [] ∅ ∅]
                     (lists st ++ [[]]))).
  { intros i n Hn. cbn in Hn.
    apply list_lookup_singleton_Some in Hn as [-> <-]. unfold deref. cbn.
    unfold base. rewrite list_lookup_middle by reflexivity. constructor. }
  destruct (new_list_shape base [0%nat] _ _ _ Hshape2 ltac:(discriminate) Hnew1)
    as (Hshape3 & Hfr1 & _ & _).
  pose proof (new_list_order _ _ _ _ _ Hshape2 Horder2 Hnew1) as Horder3.
  assert (Hb3 : build_inv base st3 l1) by (split; auto).
  pose proof (walk_keeps_order_all base tree Hfree _ _ _ _ Hb3 Horder3 Hwalk)
    as Horder4.
  destruct (walk_build_inv _ _ _ _ _ _ Hb3 Hwalk) as (Hinv4 & _ & Hfr4).
  pose proof (CFGNode_init_order _ _ _ _ _ _ Hinv4
                (frontier_ok_base _ _ _ Hfr4) Horder4 Hstop) as Horder5.
  exact (PyCFG_update_children_order _ _ Horder5 Hpass).
Qed.

(** X13: in the CFG of a program without [while], every parent of a node
    was created before the node: its [rid] is smaller.  Parent edges point
    backwards in creation order, so the graph has no cycle. *)
Theorem while_free_parents_come_first (tree : ast) (st st' : state)
    (i p : nat) (n : CFGNode) :
  while_free tree = true → gen_cfg tree st = (Done tt, st') →
  node_of st' i = Some n → p ∈ deref st' (parents n) → (p < i)%nat.
Proof.
  intros Hfree Hrun Hn Hp.
  pose proof (gen_cfg_order _ _ _ Hfree Hrun i n Hn) as Hall.
  rewrite Forall_forall in Hall. apply Hall, Hp.
Qed.

Lemma while_free_parents_come_first_witness : (4 < 5)%nat.
Proof.
  eapply (while_free_parents_come_first scenario_C init_state
            (cfg_of scenario_C) 5 4).
  - vm_compute. reflexivity.
  - vm_compute. reflexivity.
  - vm_compute. reflexivity.
  - vm_compute. apply list_elem_of_In. cbn. auto.
Defined.

Lemma order_inv_parents_before (st : state) :
  order_inv st → parents_before st = true.
Proof.
  intros Horder. unfold parents_before. apply forallb_forall. intros i _.
  destruct (node_of st i) as [n|] eqn:Hn; [|reflexivity].
  apply forallb_forall. intros p Hp. apply Nat.ltb_lt.
  specialize (Horder i n Hn). rewrite Forall_forall in Horder.
  apply Horder, list_elem_of_In, Hp.
Qed.

Lemma find_start_registered (base : nat) (linenum : Z) (st : state)
    (seed : nat) :
  builder_inv base st → find_start linenum (REGISTRY st) = Some seed →
  (seed < length (REGISTRY st))%nat.
Proof.
  intros (_ & _ & Hnodes) Hstart. unfold find_start in Hstart.
  rewrite find_start_fold in Hstart.
  destruct (last _) as [n|] eqn:Hlast; [|discriminate Hstart].
  injection Hstart as <-. apply last_Some_elem_of in Hlast.
  apply list_elem_of_filter in Hlast as [_ Hn].
  apply list_elem_of_lookup_1 in Hn as [i Hi].
  destruct (Hnodes i n Hi) as (-> & _). eapply lookup_lt_Some. exact Hi.
Qed.

(** X14: on the CFG of a program without [while], every slice query ends:
    with fuel above [(width + 2) ^ nodes], where [width] is the length of
    the longest list object and [nodes] the size of the registry, [slice]
    returns or raises, whatever the line and the variable. *)
Theorem slice_ends_on_while_free_program (tree : ast) (st st' : state)
    (fuel : nat) (linenum : Z) (varname : string) :
  while_free tree = true → gen_cfg tree st = (Done tt, st') →
  ((width st' + 2) ^ length (REGISTRY st') < fuel)%nat →
  ended (slice fuel linenum varname st').
Proof.
  intros Hfree Hrun Hfuel. unfold slice.
  apply bind_ended; [unfold ended; discriminate|].
  intros s st1 Hget. injection Hget as <- <-.
  destruct (find_start linenum (REGISTRY st')) as [seed|] eqn:Hstart;
    [|unfold ended; discriminate].
  apply bind_ended; [|intros; apply ret_ended].
  apply ordered_cfg_ends.
  - apply order_inv_parents_before. eapply gen_cfg_order; eassumption.
  - pose proof (find_start_registered _ _ _ _ (gen_cfg_inv _ _ _ Hrun) Hstart)
      as Hseed.
    assert ((width st' + 2) ^ seed ≤ (width st' + 2) ^ length (REGISTRY st'))%nat
      by (apply Nat.pow_le_mono_r; lia).
    lia.
Qed.

(** Scenario C ends, with the [TypeError] of the comparison [x > 0]. *)
Lemma slice_ends_on_while_free_program_witness :
  ended (slice 16385 5 "z" (cfg_of scenario_C)).
Proof.
  apply (slice_ends_on_while_free_program scenario_C init_state).
  - vm_compute. reflexivity.
  - vm_compute. reflexivity.
  - apply Nat.ltb_lt. vm_compute. reflexivity.
Defined.

Lemma collect_references_outcomes (e : ast) :
  if listed e then ∃ l, collect_references e = Done (Some l)
  else collect_references e = Done None ∨
       collect_references e = Raise TypeError.
Proof.
  induction e as [body IH|l targets value IHt IHv|l target annotation IHt IHa
    |l value IHv|l test body orelse IHtest IHb IHo
    |l test body orelse IHtest IHb IHo|l id|l v|l lhs rhs IHl IHr
    |l lhs comparators IHl IHc|l operand IHo
    |l cls] using ast_nested_ind; cbn [collect_references listed];
    try (left; reflexivity); try (eexists; reflexivity);
    try assumption.
  destruct (listed lhs), (listed rhs); cbn [andb].
  - destruct IHl as [x Hl], IHr as [y Hr]. rewrite Hl, Hr.
    eexists. reflexivity.
  - destruct IHl as [x Hl], IHr as [Hr | Hr]; rewrite Hl, Hr;
      right; reflexivity.
  - destruct IHr as [y Hr], IHl as [Hl | Hl]; rewrite Hl, ?Hr;
      right; reflexivity.
  - destruct IHl as [Hl | Hl], IHr as [Hr | Hr]; rewrite Hl, ?Hr;
      right; reflexivity.
Qed.

(** X15: a binary operation with an operand, at any depth, of a kind the
    collector has no branch for (a unary operation, a call, a comparison,
    ...) makes [collect_references] raise [TypeError]: the [None] of the
    operand meets list concatenation. *)
Theorem collect_references_binop_raises (l : Z) (lhs rhs : ast) :
  listed (BinOp l lhs rhs) = false →
  collect_references (BinOp l lhs rhs) = Raise TypeError.
Proof.
  intros Hno. pose proof (collect_references_outcomes (BinOp l lhs rhs)) as H.
  rewrite Hno in H. destruct H as [H | H]; [|exact H].
  exfalso. cbn [collect_references] in H.
  destruct (collect_references lhs) as [[x|]|e|];
    destruct (collect_references rhs) as [[y|]|e'|]; discriminate H.
Qed.

Lemma collect_references_binop_raises_witness :
  collect_references sum_with_negation = Raise TypeError.
Proof.
  apply collect_references_binop_raises. reflexivity.
Defined.

(** X16: a query for a line on which the registry has no node raises
    [TypeError] (a string is raised, which is no exception) and leaves the
    CFG untouched. *)
Theorem slice_raises_on_line_without_node (fuel : nat) (linenum : Z)
    (varname : string) (st : state) :
  Forall (fun n => lineno n ≠ linenum) (REGISTRY st) →
  slice fuel linenum varname st = (Raise TypeError, st).
Proof.
  intros Hnone. unfold slice, bind, get. unfold find_start.
  rewrite find_start_fold.
  replace (filter (fun n => lineno n = linenum) (REGISTRY st)) with (@nil CFGNode);
    [reflexivity|].
  symmetry. induction Hnone as [|n ns Hn _ IH]; [reflexivity|].
  rewrite filter_cons_False by exact Hn. exact IH.
Qed.

Lemma slice_raises_on_line_without_node_witness :
  slice 10 7 "d" (cfg_of scenario_A) = (Raise TypeError, cfg_of scenario_A).
Proof.
  apply slice_raises_on_line_without_node.
  vm_compute. repeat constructor; discriminate.
Defined.
